(** * Desktop clock: the offline cache worker, its UI client and the
      wallpaper rotation hook

    A shallow embedding of
    - [public/sw.js], the service worker that intercepts fetches and keeps
      the versioned cache stores;
    - the service-worker client utilities ([sendMessageToServiceWorker],
      [getCacheStatus]);
    - the [useWallpaperRotation] hook.

    Cache stores are finite maps from URL to response; the cache storage is
    the list of named stores in creation order, which is the order
    [caches.keys()] reports and [caches.match] searches. Asynchronous
    handlers are functions in a small state-and-exception monad over the
    worker's world (the cache storage and the log of network fetches). *)

From Stdlib Require Import String List Arith NArith ZArith Lia Floats.
From stdpp Require Import base option gmap strings list fin_maps.


(** ** JavaScript string helpers *)

(** [s.startsWith(p)] *)
Definition startsWith (s p : string) : bool := String.prefix p s.

(** [s.endsWith(x)] *)
Definition endsWith (s x : string) : bool :=
  let n := String.length s in
  let k := String.length x in
  (k <=? n) && String.eqb (substring (n - k) k s) x.

(** ** The service worker, [public/sw.js] *)
Module ServiceWorker.

(** *** Platform data *)

(** A response, as far as the worker and the Cache API look at it; [vary]
    lists the field values of its [Vary] header. *)
Record Response := {
  status : nat;
  statusText : string;
  vary : list string;
  body : string
}.

(** [response.ok]: the status is in the range 200-299. *)
Definition ok (r : Response) : bool :=
  (200 <=? status r) && (status r <=? 299).

Inductive RequestMode := navigate | same_origin | no_cors | cors.

(** A request as the fetch listener sees it. [url] is the request's URL,
    serialised without its fragment: what goes on the wire and the key
    under which the Cache API files the request; [pathname] is
    [new URL(request.url).pathname]. *)
Record Request := {
  method : string;
  url : string;
  pathname : string;
  mode : RequestMode
}.

(** The network: what [fetch] of a URL yields, [None] when the fetch
    rejects (no connectivity). *)
Definition Network := string -> option Response.

(** The URL parser as the worker uses it on a string: the URL the string
    denotes, resolved against the worker's own location and serialised
    without fragment; [None] when the string does not parse. Two strings
    may denote one URL. *)
Definition Locator := string -> option string.

(** One named store, and the origin's cache storage in creation order. *)
Definition CacheStorage := list (string * gmap string Response).

Record World := {
  caches : CacheStorage;
  requests : list string   (* the URLs fetched from the network, oldest first *)
}.

(** *** Promises run to completion: state and exceptions *)

Inductive Completion (A : Type) :=
| Return (a : A)
| Throw (e : string).
Arguments Return {A} a.
Arguments Throw {A} e.

Definition Async (A : Type) : Type := World -> Completion A * World.

#[global] Instance Async_ret : MRet Async := fun A a w => (Return a, w).

#[global] Instance Async_bind : MBind Async := fun A B k m w =>
  match m w with
  | (Return a, w') => k a w'
  | (Throw e, w') => (Throw e, w')
  end.

Definition throw {A} (e : string) : Async A := fun w => (Throw e, w).

(** [try { body } catch (error) { handler }] *)
Definition try_catch {A} (body : Async A) (handler : string -> Async A) : Async A :=
  fun w =>
    match body w with
    | (Return a, w') => (Return a, w')
    | (Throw e, w') => handler e w'
    end.

(** A promise the script neither awaits nor catches: its work is done
    before the next event is handled, and its rejection reaches no handler
    of the script. *)
Definition detached (promise : Async unit) : Async unit :=
  try_catch promise (fun _ => mret tt).

(** [for (const x of xs) { body }] *)
Fixpoint for_of {A} (xs : list A) (body : A -> Async unit) : Async unit :=
  match xs with
  | [] => mret tt
  | x :: rest => body x ;; for_of rest body
  end.

(** *** The Cache API *)

Fixpoint lookup_store (name : string) (cs : CacheStorage) : option (gmap string Response) :=
  match cs with
  | [] => None
  | (n, c) :: rest => if String.eqb n name then Some c else lookup_store name rest
  end.

Fixpoint update_store (name : string) (f : gmap string Response -> gmap string Response)
    (cs : CacheStorage) : CacheStorage :=
  match cs with
  | [] => []
  | (n, c) :: rest =>
      if String.eqb n name then (n, f c) :: rest else (n, c) :: update_store name f rest
  end.

(** The first store, in creation order, that holds the key. (Requests
    carry no headers here: an entry answers every request for its URL,
    which the Cache API grants when the response has no [Vary] header or
    the headers it names agree.) *)
Fixpoint match_all (key : string) (cs : CacheStorage) : option Response :=
  match cs with
  | [] => None
  | (_, c) :: rest =>
      match c !! key with
      | Some r => Some r
      | None => match_all key rest
      end
  end.

(** [caches.match(request)] *)
Definition caches_match (key : string) : Async (option Response) :=
  fun w => (Return (match_all key (caches w)), w).

(** [caches.open(name)]: the store is created, last in order, when it does
    not exist yet. The handle of a store is its name. *)
Definition caches_open (name : string) : Async string :=
  fun w =>
    match lookup_store name (caches w) with
    | Some _ => (Return name, w)
    | None => (Return name, {| caches := caches w ++ [(name, ∅)]; requests := requests w |})
    end.

(** What the Cache API accepts for storing. It refuses, with a
    [TypeError], a request whose URL is not http(s), a partial response
    (status 206) and a response whose [Vary] header lists [*]. (It also
    refuses a request that is not a GET; the fetch listener hands no other
    to a handler, and a string makes a GET request.) *)
Definition put_accepts (key : string) (r : Response) : bool :=
  (startsWith key "http://" || startsWith key "https://")
  && negb (status r =? 206)
  && negb (existsb (String.eqb "*") (vary r)).

(** [cache.put(request, response)]: an entry under the same key is
    replaced; the promise rejects, and nothing is stored, when the Cache
    API refuses the pair. *)
Definition cache_put (cache : string) (key : string) (r : Response) : Async unit :=
  fun w =>
    if put_accepts key r
    then (Return tt, {| caches := update_store cache (fun c => <[key := r]> c) (caches w);
                        requests := requests w |})
    else (Throw "TypeError: Failed to execute 'put' on 'Cache'", w).

(** [caches.keys()] *)
Definition caches_keys : Async (list string) :=
  fun w => (Return (map fst (caches w)), w).

(** [caches.delete(name)] *)
Definition caches_delete (name : string) : Async unit :=
  fun w =>
    (Return tt, {| caches := List.filter (fun nc => negb (String.eqb (fst nc) name)) (caches w);
                   requests := requests w |}).

(** [cache.keys()] of an opened store, as its length. *)
Definition cache_keys_length (cache : string) : Async nat :=
  fun w => (Return (from_option size 0 (lookup_store cache (caches w))), w).

(** [object[name] = n] on an object created by [{}]. The name
    ["__proto__"] is the accessor inherited from [Object.prototype], whose
    setter ignores a number: no property is created. *)
Definition set_property (name : string) (n : nat) (object : gmap string nat)
    : gmap string nat :=
  if String.eqb name "__proto__" then object else <[name := n]> object.

Section Worker.

(** The deployment's version tag. The script under study fixes it to
    ["v1"] in its three store names; a later deployment is the same script
    with another tag. *)
Variable tag : string.

(** How the worker's strings read as URLs. *)
Variable locate : Locator.

(** The network the worker talks to. *)
Variable net : Network.

Definition CACHE_NAME : string := "desktop-clock-" +:+ tag.
Definition STATIC_CACHE_NAME : string := "desktop-clock-static-" +:+ tag.
Definition WALLPAPER_CACHE_NAME : string := "desktop-clock-wallpapers-" +:+ tag.

(** A store name carries the version tag when it ends with a hyphen and the
    tag, as the three names above do. *)
Definition carries_tag (cacheName : string) : bool := endsWith cacheName ("-" +:+ tag).

(** [new Request(input)] for a string, as [fetch], [cache.put] and
    [caches.match] build it from a string argument: the key of the
    request. *)
Definition new_Request (input : string) : Async string :=
  fun w =>
    match locate input with
    | Some key => (Return key, w)
    | None => (Throw "TypeError: Failed to parse URL", w)
    end.

(** [fetch(request)]: the request is logged; a network failure rejects. *)
Definition fetch (key : string) : Async Response :=
  fun w =>
    let w' := {| caches := caches w; requests := requests w ++ [key] |} in
    match net key with
    | Some r => (Return r, w')
    | None => (Throw "TypeError: Failed to fetch", w')
    end.

(** [fetch(input)], [cache.put(input, response)] and [caches.match(input)]
    with a string. *)
Definition fetch_url (input : string) : Async Response :=
  key ← new_Request input; fetch key.

Definition cache_put_url (cache : string) (input : string) (r : Response) : Async unit :=
  key ← new_Request input; cache_put cache key r.

Definition caches_match_url (input : string) : Async (option Response) :=
  key ← new_Request input; caches_match key.

(** The response built when a wallpaper cannot be served. *)
Definition unavailable : Response :=
  {| status := 404; statusText := "Wallpaper not available offline"; vary := []; body := "" |}.

(** [handleWallpaperRequest] *)
Definition handleWallpaperRequest (request : Request) : Async Response :=
  try_catch
    (cachedResponse ← caches_match (url request);
     match cachedResponse with
     | Some r => mret r
     | None =>
         networkResponse ← fetch (url request);
         if ok networkResponse then
           cache ← caches_open WALLPAPER_CACHE_NAME;
           detached (cache_put cache (url request) networkResponse) ;;
           mret networkResponse
         else throw "Network response not ok"
     end)
    (fun _ => mret unavailable).

(** [handleStaticAssetRequest] *)
Definition handleStaticAssetRequest (request : Request) : Async Response :=
  try_catch
    (cachedResponse ← caches_match (url request);
     match cachedResponse with
     | Some r => mret r
     | None =>
         networkResponse ← fetch (url request);
         (if ok networkResponse then
            cache ← caches_open STATIC_CACHE_NAME;
            detached (cache_put cache (url request) networkResponse)
          else mret tt) ;;
         mret networkResponse
     end)
    (fun error =>
       match mode request with
       | navigate =>
           cachedIndex ← caches_match_url "/index.html";
           match cachedIndex with
           | Some r => mret r
           | None => throw error
           end
       | _ => throw error
       end).

(** [handleNetworkFirstRequest] *)
Definition handleNetworkFirstRequest (request : Request) : Async Response :=
  try_catch
    (networkResponse ← fetch (url request);
     (if ok networkResponse then
        cache ← caches_open CACHE_NAME;
        detached (cache_put cache (url request) networkResponse)
      else mret tt) ;;
     mret networkResponse)
    (fun error =>
       cachedResponse ← caches_match (url request);
       match cachedResponse with
       | Some r => mret r
       | None => throw error
       end).

(** The branch the fetch listener takes. *)
Inductive Route := PassThrough | Wallpaper | StaticAsset | NetworkFirst.

Definition route (request : Request) : Route :=
  if negb (String.eqb (method request) "GET") then PassThrough
  else if startsWith (pathname request) "/wallpapers/" then Wallpaper
  else if endsWith (pathname request) ".js"
          || endsWith (pathname request) ".css"
          || String.eqb (pathname request) "/"
          || endsWith (pathname request) ".html" then StaticAsset
  else NetworkFirst.

(** The fetch listener: [None] when it returns without [respondWith], so
    that the browser handles the request itself. *)
Definition onFetch (request : Request) : option (Async Response) :=
  match route request with
  | PassThrough => None
  | Wallpaper => Some (handleWallpaperRequest request)
  | StaticAsset => Some (handleStaticAssetRequest request)
  | NetworkFirst => Some (handleNetworkFirstRequest request)
  end.

(** The activate listener: every store that is not one of the deployment's
    three is deleted. ([clients.claim()] touches no store.) *)
Definition is_own_store (cacheName : string) : bool :=
  String.eqb cacheName CACHE_NAME
  || String.eqb cacheName STATIC_CACHE_NAME
  || String.eqb cacheName WALLPAPER_CACHE_NAME.

Definition onActivate : Async unit :=
  cacheNames ← caches_keys;
  for_of cacheNames (fun cacheName =>
    if negb (String.eqb cacheName CACHE_NAME)
       && negb (String.eqb cacheName STATIC_CACHE_NAME)
       && negb (String.eqb cacheName WALLPAPER_CACHE_NAME)
    then caches_delete cacheName
    else mret tt).

(** [cacheWallpapers(images)]; an image is given by its [src]. *)
Definition cacheWallpapers (images : list string) : Async unit :=
  try_catch
    (cache ← caches_open WALLPAPER_CACHE_NAME;
     for_of images (fun src =>
       try_catch
         (response ← fetch_url src;
          if ok response then cache_put_url cache src response else mret tt)
         (fun _ => mret tt)))
    (fun _ => mret tt).

(** [clearAllCaches] *)
Definition clearAllCaches : Async unit :=
  try_catch
    (cacheNames ← caches_keys;
     for_of cacheNames caches_delete)
    (fun _ => mret tt).

(** [getCacheStatus]: the entry count of every store, by name. *)
Fixpoint count_stores (cacheNames : list string) (st : gmap string nat)
    : Async (gmap string nat) :=
  match cacheNames with
  | [] => mret st
  | cacheName :: rest =>
      cache ← caches_open cacheName;
      n ← cache_keys_length cache;
      count_stores rest (set_property cacheName n st)
  end.

Definition getCacheStatus : Async (gmap string nat) :=
  try_catch
    (cacheNames ← caches_keys;
     count_stores cacheNames ∅)
    (fun _ => mret ∅).

(** The control messages the worker understands; anything else falls
    through the [switch]. *)
Inductive ControlMessage :=
| SKIP_WAITING
| CACHE_WALLPAPERS (images : list string)
| CLEAR_CACHE
| GET_CACHE_STATUS
| OTHER (type : string).

(** The message listener; the result is what it posts on the reply port. *)
Definition onMessage (msg : ControlMessage) : Async (option (gmap string nat)) :=
  match msg with
  | SKIP_WAITING => mret None
  | CACHE_WALLPAPERS images => cacheWallpapers images ;; mret None
  | CLEAR_CACHE => clearAllCaches ;; mret None
  | GET_CACHE_STATUS => st ← getCacheStatus; mret (Some st)
  | OTHER _ => mret None
  end.

End Worker.

End ServiceWorker.

(** ** The UI side of the control channel, [utils/serviceWorker] *)
Module ServiceWorkerClient.

(** A promise settles once; later calls of [resolve] and [reject] are
    ignored. *)
Inductive PromiseState (A : Type) :=
| Pending
| Fulfilled (value : A)
| Rejected (reason : string).
Arguments Pending {A}.
Arguments Fulfilled {A} value.
Arguments Rejected {A} reason.

Definition resolve {A} (value : A) (p : PromiseState A) : PromiseState A :=
  match p with
  | Pending => Fulfilled value
  | _ => p
  end.

Definition reject {A} (reason : string) (p : PromiseState A) : PromiseState A :=
  match p with
  | Pending => Rejected reason
  | _ => p
  end.

(** What surrounds one message: whether a worker controls the page, and
    when (in milliseconds after the send) a reply reaches the private port,
    if one ever does. When the reply and the timer are due at the same
    millisecond the event loop may run either first; [reply_first] says
    which. *)
Record Environment (A : Type) := {
  controller : bool;
  reply : option (N * A);
  reply_first : bool
}.
Arguments controller {A} e.
Arguments reply {A} e.
Arguments reply_first {A} e.

(** The tasks the event loop runs after the send. *)
Inductive Task (A : Type) :=
| MessageEvent (data : A)
| TimerFired.
Arguments MessageEvent {A} data.
Arguments TimerFired {A}.

(** The delay given to [setTimeout]. *)
Definition TIMEOUT_MS : N := 5000.

Definition tasks {A} (env : Environment A) : list (Task A) :=
  match reply env with
  | None => [TimerFired]
  | Some (t, data) =>
      if (t <? TIMEOUT_MS)%N || ((t =? TIMEOUT_MS)%N && reply_first env)
      then [MessageEvent data; TimerFired]
      else [TimerFired; MessageEvent data]
  end.

Definition run_task {A} (p : PromiseState A) (t : Task A) : PromiseState A :=
  match t with
  | MessageEvent data => resolve data p
  | TimerFired => reject "Service Worker message timeout" p
  end.

(** [sendMessageToServiceWorker]: the state of the returned promise once
    the reply, if any, and the timer have been handled. *)
Definition sendMessageToServiceWorker {A} (env : Environment A) : PromiseState A :=
  if controller env
  then fold_left run_task (tasks env) Pending
  else reject "Service Worker not available" Pending.

(** What an [async] function hands to its caller. *)
Inductive Settled (A : Type) :=
| Returns (value : A)
| Raises (reason : string)
| NeverSettles.
Arguments Returns {A} value.
Arguments Raises {A} reason.
Arguments NeverSettles {A}.

(** [getCacheStatus] *)
Definition getCacheStatus (env : Environment (gmap string nat)) : Settled (gmap string nat) :=
  match sendMessageToServiceWorker env with
  | Fulfilled status => Returns status
  | Rejected _ => Returns ∅
  | Pending => NeverSettles
  end.

End ServiceWorkerClient.

(** ** The rotation hook, [useWallpaperRotation], and its display *)
Module WallpaperRotation.

Record WallpaperImage := {
  src : string;
  category : string;
  filename : string
}.

(** A value of [Math.random()]: a binary64 number from 0 (included) to 1
    (excluded). Such a number is [mantissa / 2^exponent] with a mantissa of
    at most 53 bits and an exponent from 53 (the numbers from 1/2 on) to
    1074 (the smallest subnormal ones), and every such quotient is one. *)
Record Draw := {
  mantissa : Z;
  exponent : Z;
  is_binary64 :
    ((0 <=? mantissa) && (mantissa <? 2 ^ 53)
     && (53 <=? exponent) && (exponent <=? 1074))%Z = true
}.

(** Rounding to binary64. The exact value is [p / 2^e] for a natural
    number [p]; the result keeps the denominator, and [round53 p] is its
    numerator. When [p] has more than 53 bits, the [k] bits in excess are
    rounded away: to the nearest multiple of [2^k], and to the one with an
    even quotient when [p] is half-way. (The values at hand are below 2^32
    and their exponent is at least -1074: no overflow and no further
    rounding of subnormal numbers.) *)
Definition round53 (p : Z) : Z :=
  let k := (Z.log2 p - 52)%Z in
  if (k <=? 0)%Z then p
  else
    let q := (p / 2 ^ k)%Z in
    let r := (p mod 2 ^ k)%Z in
    let half := (2 ^ (k - 1))%Z in
    if (half <? r)%Z || ((r =? half)%Z && Z.odd q)
    then ((q + 1) * 2 ^ k)%Z
    else (q * 2 ^ k)%Z.

(** [Math.floor(Math.random() * n)] for the length [n] of an array: a
    length is below 2^32 and so a binary64 number as it is; the product is
    rounded to binary64 before [Math.floor] is taken. *)
Definition random_index (u : Draw) (n : nat) : nat :=
  Z.to_nat (round53 (mantissa u * Z.of_nat n) / 2 ^ exponent u).

(** The successive values [Math.random()] yields during one call. *)
Definition Randomness := nat -> Draw.

Record RotationState := {
  availableImages : list WallpaperImage;
  currentImage : option WallpaperImage;
  currentIndex : nat;
  isLoading : bool;
  error : option string
}.

(** The [useState] initial values. *)
Definition initial : RotationState :=
  {| availableImages := []; currentImage := None; currentIndex := 0;
     isLoading := true; error := None |}.

(** [hasImages] of the hook's result. *)
Definition hasImages (s : RotationState) : bool := (0 <? length (availableImages s)).

(** What [getImagesWithFallback] settles to. The thrown value is an
    [Error] with a message, or something else. *)
Inductive Thrown := ErrorObject (message : string) | OtherValue.

Inductive Resolution :=
| Resolved (images : list WallpaperImage) (errors : list string)
| ResolutionThrew (err : Thrown).

(** The images handed to [preloadImages]; an element read past the end of
    the array would be [undefined]. *)
Definition PreloadRequest := list (option WallpaperImage).

(** [loadImages], from the call to its first [await]. With no category the
    function returns here. *)
Definition loadImages_begin (categories : list string) (s : RotationState) : RotationState :=
  if (length categories =? 0) then
    {| availableImages := []; currentImage := None; currentIndex := 0;
       isLoading := false; error := None |}
  else
    {| availableImages := availableImages s; currentImage := currentImage s;
       currentIndex := currentIndex s; isLoading := true; error := None |}.

(** The [finally] block. *)
Definition loadImages_finally (s : RotationState) : RotationState :=
  {| availableImages := availableImages s; currentImage := currentImage s;
     currentIndex := currentIndex s; isLoading := false; error := error s |}.

(** The images drawn for preloading after a load: [Math.min(3, n)] draws,
    the draws following the one for the current image. *)
Definition preload_after_load (rnd : Randomness) (images : list WallpaperImage) : PreloadRequest :=
  map (fun i => images !! random_index (rnd (S i)) (length images))
      (seq 0 (Nat.min 3 (length images))).

(** [loadImages], from the settlement of [getImagesWithFallback] to the
    next [await] (the preload, when there are images) or to the end of the
    function, [finally] block included. *)
Definition loadImages_resolved (r : Resolution) (rnd : Randomness) (s : RotationState)
    : RotationState * option PreloadRequest :=
  match r with
  | Resolved images errors =>
      if (length images =? 0) then
        let errorMessage :=
          if (0 <? length errors)
          then "No valid images found: " +:+ String.concat ", " errors
          else "No images found for selected categories" in
        (loadImages_finally
           {| availableImages := []; currentImage := None; currentIndex := 0;
              isLoading := isLoading s; error := Some errorMessage |},
         None)
      else
        let randomIndex := random_index (rnd 0) (length images) in
        ({| availableImages := images; currentImage := images !! randomIndex;
            currentIndex := randomIndex; isLoading := isLoading s; error := error s |},
         Some (preload_after_load rnd images))
  | ResolutionThrew err =>
      let message :=
        match err with
        | ErrorObject m => m
        | OtherValue => "Unknown error"
        end in
      (loadImages_finally
         {| availableImages := []; currentImage := None; currentIndex := 0;
            isLoading := isLoading s;
            error := Some ("Failed to load wallpaper images: " +:+ message) |},
       None)
  end.

(** [loadImages] run from the call to the end with nothing else in between:
    the preload settles (fulfilled or rejected, the inner [catch] absorbs a
    rejection) and the [finally] block runs. *)
Definition loadImages (categories : list string) (r : Resolution) (rnd : Randomness)
    (s : RotationState) : RotationState :=
  if (length categories =? 0) then loadImages_begin categories s
  else loadImages_finally (fst (loadImages_resolved r rnd (loadImages_begin categories s))).

(** [nextImage] as created by a render that saw [images] as
    [availableImages]: the callback closes over that array and calls the
    setters of [currentImage] and [currentIndex]. The result is the new
    state and the preload the callback starts without awaiting it. *)
Definition nextImage (images : list WallpaperImage) (rnd : Randomness) (s : RotationState)
    : RotationState * option PreloadRequest :=
  if (length images =? 0) then (s, None)
  else
    let randomIndex := random_index (rnd 0) (length images) in
    let randomImage := images !! randomIndex in
    let imagesToPreload :=
      flat_map (fun i =>
                  let preloadIndex := random_index (rnd (S i)) (length images) in
                  if (preloadIndex =? randomIndex) then []
                  else [images !! preloadIndex])
               (seq 0 2) in
    ({| availableImages := availableImages s; currentImage := randomImage;
        currentIndex := randomIndex; isLoading := isLoading s; error := error s |},
     Some imagesToPreload).

(** The interval effect installs the timer only under this condition. *)
Definition timer_runs (enabled : bool) (s : RotationState) : bool :=
  enabled && (1 <? length (availableImages s)).

(** The interval effect of a render that saw the state [s]: the timer it
    leaves running, given by the array its [nextImage] closes over. *)
Definition interval_effect (enabled : bool) (s : RotationState)
    : option (list WallpaperImage) :=
  if timer_runs enabled s then Some (availableImages s) else None.

(** The mounted hook between two events: the latest values written to its
    five state cells, the [categories] of the latest render, the interval
    the latest render left running, and the calls of [loadImages] that are
    waiting, for [getImagesWithFallback] or for [preloadImages]. *)
Record Hook := {
  cells : RotationState;
  selected : list string;
  interval : option (list WallpaperImage);
  resolving : nat;
  preloading : nat
}.

(** The first render and its effects: no interval over the initial state,
    and the first call of [loadImages]. *)
Definition mount (categories : list string) : Hook :=
  {| cells := loadImages_begin categories initial;
     selected := categories;
     interval := None;
     resolving := if (length categories =? 0) then 0 else 1;
     preloading := 0 |}.

(** A render with the same [categories]: the interval effect cleans up
    and runs again on the state the render saw. *)
Definition commit (enabled : bool) (h : Hook) : Hook :=
  {| cells := cells h; selected := selected h;
     interval := interval_effect enabled (cells h);
     resolving := resolving h; preloading := preloading h |}.

(** A render with new [categories]: the interval effect, then the load
    effect, which calls the new [loadImages] and cancels nothing. *)
Definition select (enabled : bool) (categories : list string) (h : Hook) : Hook :=
  {| cells := loadImages_begin categories (cells h);
     selected := categories;
     interval := interval_effect enabled (cells h);
     resolving := if (length categories =? 0) then resolving h else S (resolving h);
     preloading := preloading h |}.

(** [getImagesWithFallback] settles for one of the waiting calls. *)
Definition settle (r : Resolution) (rnd : Randomness) (h : Hook) : Hook :=
  {| cells := fst (loadImages_resolved r rnd (cells h));
     selected := selected h;
     interval := interval h;
     resolving := pred (resolving h);
     preloading := match snd (loadImages_resolved r rnd (cells h)) with
                   | Some _ => S (preloading h)
                   | None => preloading h
                   end |}.

(** [preloadImages] settles for one of the waiting calls, which runs its
    [finally] block. *)
Definition finish (h : Hook) : Hook :=
  {| cells := loadImages_finally (cells h); selected := selected h;
     interval := interval h;
     resolving := resolving h; preloading := pred (preloading h) |}.

(** The running interval fires: the [nextImage] it was given runs. *)
Definition tick (images : list WallpaperImage) (rnd : Randomness) (h : Hook) : Hook :=
  {| cells := fst (nextImage images rnd (cells h)); selected := selected h;
     interval := interval h;
     resolving := resolving h; preloading := preloading h |}.

(** What can happen to the mounted hook. A step is one synchronous stretch
    of the hook's code, the setter calls of the stretch applied together.
    Calls of [loadImages] may overlap, and settle in any order; the
    interval runs the [nextImage] of the render that installed it until a
    later render replaces it. *)
Inductive step : Hook -> Hook -> Prop :=
| step_render enabled h :
    step h (commit enabled h)
| step_categories enabled categories h :
    step h (select enabled categories h)
| step_resolved r rnd h :
    0 < resolving h ->
    step h (settle r rnd h)
| step_preloaded h :
    0 < preloading h ->
    step h (finish h)
| step_tick images rnd h :
    interval h = Some images ->
    step h (tick images rnd h).

Definition reachable (h : Hook) : Prop :=
  exists categories, rtc step (mount categories) h.


(** The steps in which every tick runs the [nextImage] of the latest
    state: no tick falls between a state update and the render that
    follows it. *)
Inductive timely_step : Hook -> Hook -> Prop :=
| timely_render enabled h :
    timely_step h (commit enabled h)
| timely_categories enabled categories h :
    timely_step h (select enabled categories h)
| timely_resolved r rnd h :
    0 < resolving h ->
    timely_step h (settle r rnd h)
| timely_preloaded h :
    0 < preloading h ->
    timely_step h (finish h)
| timely_tick rnd h :
    interval h = Some (availableImages (cells h)) ->
    timely_step h (tick (availableImages (cells h)) rnd h).

(** What the [Wallpaper] component shows. *)
Inductive Panel :=
| Nothing
| LoadingPanel
| ErrorPanel (message : string)
| EmptyPanel (text : string)
| ImagePanel (image : WallpaperImage).

(** JavaScript truthiness of [error]: [null] and the empty string are
    falsy. *)
Definition truthy (e : option string) : option string :=
  match e with
  | Some message => if String.eqb message "" then None else Some message
  | None => None
  end.

(** The [Wallpaper] component. *)
Definition render (categories : list string) (enabled : bool) (s : RotationState) : Panel :=
  if negb enabled then Nothing
  else if isLoading s then LoadingPanel
  else
    match truthy (error s) with
    | Some message => ErrorPanel message
    | None =>
        match hasImages s, currentImage s with
        | true, Some image => ImagePanel image
        | _, _ =>
            EmptyPanel (if length categories =? 0
                        then "No wallpaper categories selected"
                        else "No images found in selected categories")
        end
    end.

End WallpaperRotation.

(** ** Installation: the shell and the priority wallpapers, [public/sw.js] *)
Module ServiceWorkerInstall.
Import ServiceWorker.

Definition PRIORITY_WALLPAPER_CATEGORIES : list string :=
  ["nature"; "motivational"; "common_mass"].

Definition MAX_WALLPAPERS_PER_CATEGORY : nat := 5.

(** The URL of one wallpaper, [`/wallpapers/${category}/${imageName}`]. *)
Definition imageUrl (category imageName : string) : string :=
  "/wallpapers/" +:+ category +:+ "/" +:+ imageName.

(** The application shell cached at installation. *)
Definition STATIC_ASSETS : list string :=
  ["/"; "/index.html"; "/static/js/bundle.js"; "/static/css/main.css"; "/manifest.json"].

Section Install.

Variable tag : string.
Variable locate : Locator.
Variable net : Network.

(** How a response body reads as the image manifest, a mapping from
    category to file names; [None] when the body is not JSON. *)
Variable parse : string -> option (gmap string (list string)).

(** [response.json()] *)
Definition response_json (r : Response) : Async (gmap string (list string)) :=
  fun w =>
    match parse (body r) with
    | Some manifest => (Return manifest, w)
    | None => (Throw "SyntaxError: Unexpected token", w)
    end.

(** [cachePriorityWallpapers] *)
Definition cachePriorityWallpapers : Async unit :=
  try_catch
    (cache ← caches_open (WALLPAPER_CACHE_NAME tag);
     for_of PRIORITY_WALLPAPER_CATEGORIES (fun category =>
       try_catch
         (manifestResponse ← fetch_url locate net "/wallpapers/manifest.json";
          if ok manifestResponse then
            manifest ← response_json manifestResponse;
            let categoryImages := default [] (manifest !! category) in
            let imagesToCache := take MAX_WALLPAPERS_PER_CATEGORY categoryImages in
            for_of imagesToCache (fun imageName =>
              try_catch
                (imageResponse ← fetch_url locate net (imageUrl category imageName);
                 if ok imageResponse
                 then cache_put_url locate cache (imageUrl category imageName) imageResponse
                 else mret tt)
                (fun _ => mret tt))
          else mret tt)
         (fun _ => mret tt)))
    (fun _ => mret tt).

(** [urls.map(url => new Request(url, { cache: 'reload' }))]: the keys of
    the requests; the first string that does not parse throws. *)
Fixpoint new_Requests (inputs : list string) : Async (list string) :=
  match inputs with
  | [] => mret []
  | input :: rest =>
      key ← new_Request locate input;
      keys ← new_Requests rest;
      mret (key :: keys)
  end.

(** What [cache.addAll] takes from the network for one request: a
    response that arrived, is ok, and that the Cache API stores. *)
Definition addable (key : string) : bool :=
  match net key with
  | Some r => ok r && put_accepts key r
  | None => false
  end.

(** [cache.addAll(requests)]. A request that is not http(s) rejects the
    call before anything is fetched. Otherwise every request is fetched;
    the responses are stored only when each of them can be, and no two
    requests have the same URL; the call rejects otherwise and stores
    none. *)
Definition cache_addAll (cache : string) (keys : list string) : Async unit :=
  fun w =>
    if negb (forallb (fun key => startsWith key "http://" || startsWith key "https://") keys)
    then (Throw "TypeError: Request scheme is unsupported", w)
    else if forallb addable keys && bool_decide (NoDup keys)
    then (Return tt,
          {| caches := update_store cache
                         (fun c => fold_left (fun c key => match net key with
                                                           | Some r => <[key := r]> c
                                                           | None => c
                                                           end) keys c)
                         (caches w);
             requests := requests w ++ keys |})
    else (Throw "TypeError: Failed to execute 'addAll' on 'Cache'",
          {| caches := caches w; requests := requests w ++ keys |}).

(** The install listener. Both branches of its [Promise.all] run to their
    end, the shell first; the result tells whether [skipWaiting] was
    called, which the [catch] at the end skips. *)
Definition onInstall : Async bool :=
  fun w =>
    let (shell, w1) :=
      (cache ← caches_open (STATIC_CACHE_NAME tag);
       keys ← new_Requests STATIC_ASSETS;
       cache_addAll cache keys) w in
    let (wallpapers, w2) := cachePriorityWallpapers w1 in
    match shell, wallpapers with
    | Return _, Return _ => (Return true, w2)
    | _, _ => (Return false, w2)
    end.

End Install.

End ServiceWorkerInstall.

(** ** The worker over its life: installation, activation, fetches and
       messages, [public/sw.js] *)
Module WorkerLife.
Import ServiceWorker ServiceWorkerInstall.

Inductive Event :=
| Install
| Activate
| Fetch (request : Request)
| Message (msg : ControlMessage).

(** The worker's world after its listener has handled one event, the
    network being [net] meanwhile. *)
Definition after (tag : string) (locate : Locator)
    (parse : string -> option (gmap string (list string)))
    (net : Network) (e : Event) (w : World) : World :=
  match e with
  | Install => snd (onInstall tag locate net parse w)
  | Activate => snd (onActivate tag w)
  | Fetch request =>
      match onFetch tag locate net request with
      | Some handler => snd (handler w)
      | None => w
      end
  | Message msg => snd (onMessage tag locate net msg w)
  end.

(** A history of events, each with the network of its time. *)
Definition replay (tag : string) (locate : Locator)
    (parse : string -> option (gmap string (list string)))
    (history : list (Network * Event)) (w : World) : World :=
  fold_left (fun w ne => after tag locate parse (fst ne) (snd ne) w) history w.

(** Every response in every store is an ok response. *)
Definition only_ok (cs : CacheStorage) : Prop :=
  Forall (fun nc => map_Forall (fun _ r => ok r = true) (snd nc)) cs.

End WorkerLife.

(** ** The control channel end to end, and the other client calls of
       [utils/serviceWorker] *)
Module ControlChannel.
Import ServiceWorker ServiceWorkerClient.

(** What a client call writes on the console. *)
Inductive ConsoleLine :=
| ConsoleLog (text : string)
| ConsoleError (text : string) (reason : string).

(** The client's [cacheWallpapers] *)
Definition cacheWallpapers {A} (env : Environment A) : option ConsoleLine :=
  match sendMessageToServiceWorker env with
  | Fulfilled _ => Some (ConsoleLog "Wallpapers cached successfully")
  | Rejected reason => Some (ConsoleError "Failed to cache wallpapers:" reason)
  | Pending => None
  end.

(** [clearServiceWorkerCache] *)
Definition clearServiceWorkerCache {A} (env : Environment A) : option ConsoleLine :=
  match sendMessageToServiceWorker env with
  | Fulfilled _ => Some (ConsoleLog "Service Worker cache cleared")
  | Rejected reason => Some (ConsoleError "Failed to clear cache:" reason)
  | Pending => None
  end.

(** The link between a page and its worker: whether the worker controls
    the page, and how long a posted reply takes to arrive. *)
Record Link := {
  controlled : bool;
  latency : N;
  tie_to_reply : bool
}.

(** [controller.postMessage(message, [port2])] as the worker's message
    listener answers it: the worker's world afterwards, and what the page
    then observes. The listener replies on the port only where it calls
    [event.ports[0].postMessage]. *)
Definition post (tag : string) (locate : Locator) (net : Network) (l : Link)
    (msg : ControlMessage) (w : World)
    : World * Environment (gmap string nat) :=
  if controlled l then
    let (posted, w') := onMessage tag locate net msg w in
    (w', {| controller := true;
            reply := match posted with
                     | Return (Some st) => Some (latency l, st)
                     | _ => None
                     end;
            reply_first := tie_to_reply l |})
  else (w, {| controller := false; reply := None; reply_first := tie_to_reply l |}).

End ControlChannel.

(** ** The category checkboxes of the settings panel, [components/Settings] *)
Module SettingsPanel.

(** [selectedCategories.includes(category)] *)
Definition includes (selectedCategories : list string) (category : string) : bool :=
  existsb (String.eqb category) selectedCategories.

(** [handleCategoryToggle]: the selection handed to [onSettingsChange]. *)
Definition handleCategoryToggle (selectedCategories : list string)
    (category : string) (selected : bool) : list string :=
  if selected then
    if includes selectedCategories category
    then selectedCategories
    else selectedCategories ++ [category]
  else List.filter (fun cat => negb (String.eqb cat category)) selectedCategories.

End SettingsPanel.

(** ** Settings as stored, [hooks/useLocalStorage] with the defaults of
       [utils/constants] *)
Module StoredSettings.

(** A JavaScript value as [JSON.parse] can yield it, and [undefined]. The
    fields of an object are in key order, each name once. *)
#[warnings="-register-all"] Inductive Value :=
| VUndefined
| VNull
| VBool (b : bool)
| VNumber (x : float)
| VString (s : string)
| VArray (items : list Value)
| VObject (fields : list (string * Value)).

(** [Boolean(v)]: what [!v] and [v || w] test. *)
Definition ToBoolean (v : Value) : bool :=
  match v with
  | VUndefined | VNull => false
  | VBool b => b
  | VNumber x => negb (PrimFloat.is_zero x || PrimFloat.is_nan x)
  | VString s => negb (String.eqb s "")
  | VArray _ | VObject _ => true
  end.

(** [typeof v === 'object'] *)
Definition typeof_object (v : Value) : bool :=
  match v with
  | VNull | VArray _ | VObject _ => true
  | _ => false
  end.

(** [field in data] for an object or an array and one of the field names
    of the settings, none of which is an index or a property of
    [Array.prototype] or [Object.prototype]. *)
Definition has_field (field : string) (data : Value) : bool :=
  match data with
  | VObject fields => existsb (fun kv => String.eqb (fst kv) field) fields
  | _ => false
  end.

(** [data.field] for such a name; [undefined] when the field is missing. *)
Definition get (field : string) (data : Value) : Value :=
  match data with
  | VObject fields =>
      match find (fun kv => String.eqb (fst kv) field) fields with
      | Some kv => snd kv
      | None => VUndefined
      end
  | _ => VUndefined
  end.

(** [v || fallback] *)
Definition or_default (v fallback : Value) : Value :=
  if ToBoolean v then v else fallback.

(** The settings at run time. The declared types are erased: a field holds
    whatever value was put there. *)
Record AppSettings := {
  clockEnabled : Value;
  wallpaperEnabled : Value;
  selectedCategories : Value;
  rotationInterval : Value;
  timeFormat : Value;
  fontColor : Value;
  fontFamily : Value;
  displayMode : Value
}.

Definition DEFAULT_SETTINGS : AppSettings :=
  {| clockEnabled := VBool true;
     wallpaperEnabled := VBool true;
     selectedCategories :=
       VArray [VString "rajini"; VString "kamal"; VString "automobile"; VString "nature"];
     rotationInterval := VNumber 60000;
     timeFormat := VString "12h";
     fontColor := VString "#ffffff";
     fontFamily := VString "Arial, sans-serif";
     displayMode := VString "digital-clock" |}.

(** [STORAGE_KEYS.VERSION] *)
Definition VERSION : string := "1.0.0".

Definition requiredFields : list string :=
  ["version"; "clockEnabled"; "wallpaperEnabled"; "selectedCategories";
   "rotationInterval"; "timeFormat"; "fontColor"; "fontFamily"; "lastUpdated"].

(** [validateSettings]: the required fields are present, whatever they
    hold. *)
Definition validateSettings (data : Value) : bool :=
  if negb (ToBoolean data) || negb (typeof_object data) then false
  else forallb (fun field => has_field field data) requiredFields.

(** [convertStoredToAppSettings] *)
Definition convertStoredToAppSettings (stored : Value) : AppSettings :=
  {| clockEnabled := get "clockEnabled" stored;
     wallpaperEnabled := get "wallpaperEnabled" stored;
     selectedCategories := get "selectedCategories" stored;
     rotationInterval := get "rotationInterval" stored;
     timeFormat := get "timeFormat" stored;
     fontColor := or_default (get "fontColor" stored) (fontColor DEFAULT_SETTINGS);
     fontFamily := or_default (get "fontFamily" stored) (fontFamily DEFAULT_SETTINGS);
     displayMode := or_default (get "displayMode" stored) (displayMode DEFAULT_SETTINGS) |}.

(** [convertAppToStoredSettings]; [now] is [new Date().toISOString()]. *)
Definition convertAppToStoredSettings (now : string) (appSettings : AppSettings) : Value :=
  VObject [("version", VString VERSION);
           ("clockEnabled", clockEnabled appSettings);
           ("wallpaperEnabled", wallpaperEnabled appSettings);
           ("selectedCategories", selectedCategories appSettings);
           ("rotationInterval", rotationInterval appSettings);
           ("timeFormat", timeFormat appSettings);
           ("fontColor", fontColor appSettings);
           ("fontFamily", fontFamily appSettings);
           ("displayMode", displayMode appSettings);
           ("lastUpdated", VString now)].

(** What [localStorage.getItem] and [JSON.parse] find under the settings
    key: no item (or the empty text), a text that is not JSON, or the
    value a JSON text denotes. *)
Inductive Found :=
| NoItem
| NotJson
| Parsed (parsedData : Value).

(** [parsedData.version !== STORAGE_KEYS.VERSION] *)
Definition version_differs (parsedData : Value) : bool :=
  match get "version" parsedData with
  | VString v => negb (String.eqb v VERSION)
  | _ => true
  end.

(** [loadSettings]: the settings it puts in the hook's state. *)
Definition loadSettings (found : Found) : AppSettings :=
  match found with
  | NoItem => DEFAULT_SETTINGS
  | NotJson => DEFAULT_SETTINGS
  | Parsed parsedData =>
      if negb (validateSettings parsedData) then DEFAULT_SETTINGS
      else if version_differs parsedData then DEFAULT_SETTINGS
      else convertStoredToAppSettings parsedData
  end.

(** Settings of the declared types, as the application writes them. *)
Inductive TimeFormat := h12 | h24.
Inductive DisplayMode := digital_clock | wallpaper | focus_mode.

Record Typed := {
  typed_clockEnabled : bool;
  typed_wallpaperEnabled : bool;
  typed_selectedCategories : list string;
  typed_rotationInterval : N;
  typed_timeFormat : TimeFormat;
  typed_fontColor : string;
  typed_fontFamily : string;
  typed_displayMode : DisplayMode
}.

(** A count of milliseconds as a number. *)
Definition milliseconds (n : N) : float :=
  PrimFloat.of_uint63 (Uint63.of_Z (Z.of_N n)).

Definition untyped (t : Typed) : AppSettings :=
  {| clockEnabled := VBool (typed_clockEnabled t);
     wallpaperEnabled := VBool (typed_wallpaperEnabled t);
     selectedCategories := VArray (map VString (typed_selectedCategories t));
     rotationInterval := VNumber (milliseconds (typed_rotationInterval t));
     timeFormat := VString (match typed_timeFormat t with
                            | h12 => "12h"
                            | h24 => "24h"
                            end);
     fontColor := VString (typed_fontColor t);
     fontFamily := VString (typed_fontFamily t);
     displayMode := VString (match typed_displayMode t with
                             | digital_clock => "digital-clock"
                             | wallpaper => "wallpaper"
                             | focus_mode => "focus-mode"
                             end) |}.

(** What [saveSettings] leaves under the settings key, as [loadSettings]
    will find it: for settings of the declared types, the text
    [JSON.stringify] writes denotes the value it was given. *)
Definition saved (now : string) (t : Typed) : Found :=
  Parsed (convertAppToStoredSettings now (untyped t)).

End StoredSettings.

(** ** Sample data *)
Module Samples.
Import ServiceWorker.

Definition no_stores : World := {| caches := []; requests := [] |}.

Definition jpeg : Response :=
  {| status := 200; statusText := "OK"; vary := []; body := "jpeg bytes" |}.
Definition partial_jpeg : Response :=
  {| status := 206; statusText := "Partial Content"; vary := [];
     body := "jpeg bytes, first part" |}.
Definition not_found : Response :=
  {| status := 404; statusText := "Not Found"; vary := []; body := "" |}.
Definition shell_old : Response :=
  {| status := 200; statusText := "OK"; vary := []; body := "shell, build 1" |}.
Definition shell_new : Response :=
  {| status := 200; statusText := "OK"; vary := []; body := "shell, build 2" |}.

(** The URL parser of a worker served from https://clock.example/sw.js,
    on the strings used below: a path is resolved against the origin (the
    dot segments of the one path that has some are removed by hand), an
    absolute http(s) URL stands for itself, and the string with the
    unclosed bracket does not parse. *)
Definition here : Locator := fun input =>
  if String.eqb input "/wallpapers/nature/../../index.html"
  then Some "https://clock.example/index.html"
  else if String.eqb input "https://["
  then None
  else if startsWith input "/"
  then Some ("https://clock.example" +:+ input)
  else if startsWith input "https://" || startsWith input "http://"
  then Some input
  else Some ("https://clock.example/" +:+ input).

Definition a_jpg : string := "https://clock.example/wallpapers/nature/a.jpg".
Definition b_jpg : string := "https://clock.example/wallpapers/nature/b.jpg".
Definition index_html : string := "https://clock.example/index.html".

Definition wallpaper_request : Request :=
  {| method := "GET"; url := a_jpg;
     pathname := "/wallpapers/nature/a.jpg"; mode := no_cors |}.

Definition index_request : Request :=
  {| method := "GET"; url := index_html; pathname := "/index.html"; mode := navigate |}.

Definition root_request : Request :=
  {| method := "GET"; url := "https://clock.example/"; pathname := "/"; mode := navigate |}.

(** A network that serves the wallpaper and a newer shell. *)
Definition online : Network := fun key =>
  if String.eqb key a_jpg then Some jpeg
  else if String.eqb key index_html then Some shell_new
  else Some not_found.

(** A network whose server answers 404 to everything. *)
Definition missing : Network := fun _ => Some not_found.

(** A network whose server answers every request with a part of the
    wallpaper. *)
Definition ranged : Network := fun _ => Some partial_jpeg.

(** No connectivity. *)
Definition offline : Network := fun _ => None.

(** The shell as an earlier visit cached it. *)
Definition shell_cached : World :=
  {| caches := [("desktop-clock-static-v1", {[index_html := shell_old]})];
     requests := [] |}.

(** A network that serves two wallpapers. *)
Definition gallery : Network := fun key =>
  if String.eqb key a_jpg then Some jpeg
  else if String.eqb key b_jpg then Some jpeg
  else None.

(** The stores of deployment v1, a store of deployment v2 and a store of
    no deployment. *)
Definition after_v1 : World :=
  {| caches := [("desktop-clock-v1", ∅);
                ("desktop-clock-static-v1", {[index_html := shell_old]});
                ("desktop-clock-wallpapers-v1", {[a_jpg := jpeg]});
                ("desktop-clock-static-v2", {[index_html := shell_new]});
                ("scratch", ∅)];
     requests := [] |}.

End Samples.

Module RotationSamples.
Import WallpaperRotation.

Definition dawn : WallpaperImage :=
  {| src := "/wallpapers/nature/dawn.jpg"; category := "nature"; filename := "dawn.jpg" |}.
Definition dusk : WallpaperImage :=
  {| src := "/wallpapers/nature/dusk.jpg"; category := "nature"; filename := "dusk.jpg" |}.

(** The draw 0, the draw 1/2, and the largest draw below 2/3. *)
Definition zero : Draw := {| mantissa := 0; exponent := 53; is_binary64 := eq_refl |}.
Definition half : Draw := {| mantissa := 2 ^ 52; exponent := 53; is_binary64 := eq_refl |}.
Definition nearly_two_thirds : Draw :=
  {| mantissa := 6004799503160661; exponent := 53; is_binary64 := eq_refl |}.

(** [Math.random()] yielding 0 every time. *)
Definition zeros : Randomness := fun _ => zero.

(** [Math.random()] yielding 1/2 every time. *)
Definition halves : Randomness := fun _ => half.

(** [Math.random()] yielding 0, then 1/2 every time. *)
Definition zero_then_halves : Randomness := fun i =>
  match i with
  | 0 => zero
  | S _ => half
  end.

(** Two images on display, the first one current. *)
Definition two_images : RotationState :=
  {| availableImages := [dawn; dusk]; currentImage := Some dawn; currentIndex := 0;
     isLoading := false; error := None |}.

End RotationSamples.

(** * Properties of the service worker *)
Module ServiceWorkerFacts.
Import ServiceWorker.

(** The store names of the script as deployed. *)
Example CACHE_NAME_v1 : CACHE_NAME "v1" = "desktop-clock-v1".
Proof. reflexivity. Qed.

Example STATIC_CACHE_NAME_v1 : STATIC_CACHE_NAME "v1" = "desktop-clock-static-v1".
Proof. reflexivity. Qed.

Example WALLPAPER_CACHE_NAME_v1 : WALLPAPER_CACHE_NAME "v1" = "desktop-clock-wallpapers-v1".
Proof. reflexivity. Qed.

(** Unfolds one handler down to the stores. *)
Ltac run :=
  unfold handleWallpaperRequest, handleStaticAssetRequest, handleNetworkFirstRequest,
    detached, caches_match_url, fetch_url, cache_put_url, new_Request,
    try_catch, mbind, Async_bind, mret, Async_ret, throw,
    caches_match, caches_open, cache_put, fetch; simpl.

Lemma lookup_update_store name f cs :
  lookup_store name (update_store name f cs) = f <$> lookup_store name cs.
Proof.
  induction cs as [|[n c] cs IH]; simpl; [reflexivity|].
  destruct (String.eqb n name) eqn:E; simpl; rewrite E; [reflexivity|exact IH].
Qed.

Lemma lookup_store_app name cs cs' :
  lookup_store name (cs ++ cs') =
  match lookup_store name cs with
  | Some c => Some c
  | None => lookup_store name cs'
  end.
Proof.
  induction cs as [|[n c] cs IH]; simpl; [reflexivity|].
  destruct (String.eqb n name); [reflexivity|exact IH].
Qed.

Lemma lookup_store_new name cs :
  lookup_store name cs = None ->
  lookup_store name (cs ++ [(name, ∅)]) = Some ∅.
Proof.
  intros H. rewrite lookup_store_app, H. simpl. now rewrite String.eqb_refl.
Qed.

(** The storage once [caches.open] has created the store on demand. *)
Definition opened (name : string) (cs : CacheStorage) : CacheStorage :=
  match lookup_store name cs with
  | Some _ => cs
  | None => cs ++ [(name, ∅)]
  end.

Lemma lookup_store_opened name cs :
  lookup_store name (opened name cs) = Some (default ∅ (lookup_store name cs)).
Proof.
  unfold opened. destruct (lookup_store name cs) eqn:E; simpl; [exact E|].
  now apply lookup_store_new.
Qed.

(** A store that is not the one written is left as it is. *)
Lemma lookup_update_other name other f cs :
  other <> name -> lookup_store other (update_store name f cs) = lookup_store other cs.
Proof.
  intros Hne. induction cs as [|[n c] cs IH]; simpl; [reflexivity|].
  destruct (String.eqb_spec n name) as [->|Hn]; simpl.
  - destruct (String.eqb_spec name other) as [->|_]; [contradiction|reflexivity].
  - destruct (String.eqb n other); [reflexivity|exact IH].
Qed.

Lemma lookup_opened_other name other cs :
  other <> name -> lookup_store other (opened name cs) = lookup_store other cs.
Proof.
  intros Hne. unfold opened. destruct (lookup_store name cs); [reflexivity|].
  rewrite lookup_store_app. destruct (lookup_store other cs); [reflexivity|].
  simpl. destruct (String.eqb_spec name other) as [->|_]; [contradiction|reflexivity].
Qed.

(** The storage after [caches.open(name)] and a [cache.put] that is not
    awaited: the entry is written when the Cache API accepts it, and the
    store is only opened when it refuses. *)
Definition stored (name key : string) (r : Response) (cs : CacheStorage) : CacheStorage :=
  if put_accepts key r
  then update_store name (fun c => <[key := r]> c) (opened name cs)
  else opened name cs.

Lemma lookup_stored name key r cs :
  lookup_store name (stored name key r cs) =
  Some (if put_accepts key r
        then <[key := r]> (default ∅ (lookup_store name cs))
        else default ∅ (lookup_store name cs)).
Proof.
  unfold stored. destruct (put_accepts key r).
  - now rewrite lookup_update_store, lookup_store_opened.
  - apply lookup_store_opened.
Qed.

Lemma lookup_stored_other name other key r cs :
  other <> name -> lookup_store other (stored name key r cs) = lookup_store other cs.
Proof.
  intros Hne. unfold stored. destruct (put_accepts key r).
  - now rewrite lookup_update_other, lookup_opened_other.
  - now apply lookup_opened_other.
Qed.

Section Handlers.

Variable tag : string.
Variable locate : Locator.
Variable net : Network.

(** A cache hit ends a wallpaper request at once. *)
Lemma wallpaper_hit request w r :
  match_all (url request) (caches w) = Some r ->
  handleWallpaperRequest tag net request w = (Return r, w).
Proof. intros H. run. now rewrite H. Qed.

(** A miss that the network answers with an ok response. *)
Lemma wallpaper_miss_answered request w r :
  match_all (url request) (caches w) = None ->
  net (url request) = Some r -> ok r = true ->
  handleWallpaperRequest tag net request w =
    (Return r,
     {| caches := stored (WALLPAPER_CACHE_NAME tag) (url request) r (caches w);
        requests := requests w ++ [url request] |}).
Proof.
  intros Hm Hn Hok. run. rewrite Hm, Hn, Hok. unfold stored, opened. simpl.
  destruct (lookup_store (WALLPAPER_CACHE_NAME tag) (caches w)); simpl;
    destruct (put_accepts (url request) r); reflexivity.
Qed.

(** A miss with the network down, or answering with a response that is not
    ok: the built 404 response, and no store is touched. *)
Lemma wallpaper_miss_failed request w :
  match_all (url request) (caches w) = None ->
  (net (url request) = None \/ exists r, net (url request) = Some r /\ ok r = false) ->
  handleWallpaperRequest tag net request w =
    (Return unavailable,
     {| caches := caches w; requests := requests w ++ [url request] |}).
Proof.
  intros Hm [Hn|[r [Hn Hok]]]; run; rewrite Hm, Hn; [reflexivity|].
  now rewrite Hok.
Qed.

(** A cache hit ends a static request at once: nothing is fetched and no
    store changes. *)
Lemma static_hit request w r :
  match_all (url request) (caches w) = Some r ->
  handleStaticAssetRequest tag locate net request w = (Return r, w).
Proof. intros H. run. now rewrite H. Qed.

(** What [caches.match('/index.html')] completes with. *)
Definition cached_index (failure : string) (cs : CacheStorage) : Completion Response :=
  match locate "/index.html" with
  | Some key =>
      match match_all key cs with
      | Some index => Return index
      | None => Throw failure
      end
  | None => Throw "TypeError: Failed to parse URL"
  end.

(** With nothing cached and the network down, a navigation falls back to
    the cached ['/index.html']. *)
Lemma static_navigate_fallback request w :
  match_all (url request) (caches w) = None ->
  net (url request) = None ->
  mode request = navigate ->
  handleStaticAssetRequest tag locate net request w =
    (cached_index "TypeError: Failed to fetch" (caches w),
     {| caches := caches w; requests := requests w ++ [url request] |}).
Proof.
  intros Hm Hn Hnav. run. rewrite Hm, Hn, Hnav. unfold cached_index. simpl.
  destruct (locate "/index.html") as [key|]; [|reflexivity]. simpl.
  now destruct (match_all key (caches w)).
Qed.

(** Outside navigations the failure is passed on. *)
Lemma static_failure_propagates request w :
  match_all (url request) (caches w) = None ->
  net (url request) = None ->
  mode request <> navigate ->
  handleStaticAssetRequest tag locate net request w =
    (Throw "TypeError: Failed to fetch",
     {| caches := caches w; requests := requests w ++ [url request] |}).
Proof.
  intros Hm Hn Hnav. run. rewrite Hm, Hn.
  now destruct (mode request).
Qed.

Lemma static_miss_answered request w r :
  match_all (url request) (caches w) = None ->
  net (url request) = Some r ->
  handleStaticAssetRequest tag locate net request w =
    (Return r,
     {| caches := if ok r
                  then stored (STATIC_CACHE_NAME tag) (url request) r (caches w)
                  else caches w;
        requests := requests w ++ [url request] |}).
Proof.
  intros Hm Hn. run. rewrite Hm, Hn. unfold stored, opened.
  destruct (ok r); [|reflexivity]. simpl.
  destruct (lookup_store (STATIC_CACHE_NAME tag) (caches w)); simpl;
    destruct (put_accepts (url request) r); reflexivity.
Qed.

Lemma networkFirst_answered request w r :
  net (url request) = Some r ->
  handleNetworkFirstRequest tag net request w =
    (Return r,
     {| caches := if ok r
                  then stored (CACHE_NAME tag) (url request) r (caches w)
                  else caches w;
        requests := requests w ++ [url request] |}).
Proof.
  intros Hn. run. rewrite Hn. unfold stored, opened.
  destruct (ok r); [|reflexivity]. simpl.
  destruct (lookup_store (CACHE_NAME tag) (caches w)); simpl;
    destruct (put_accepts (url request) r); reflexivity.
Qed.

Lemma networkFirst_down request w :
  net (url request) = None ->
  handleNetworkFirstRequest tag net request w =
    (match match_all (url request) (caches w) with
     | Some cached => Return cached
     | None => Throw "TypeError: Failed to fetch"
     end,
     {| caches := caches w; requests := requests w ++ [url request] |}).
Proof.
  intros Hn. run. rewrite Hn. simpl.
  now destruct (match_all (url request) (caches w)).
Qed.

Lemma onFetch_wallpaper request :
  route request = Wallpaper ->
  onFetch tag locate net request = Some (handleWallpaperRequest tag net request).
Proof. intros H. unfold onFetch. now rewrite H. Qed.

Lemma onFetch_static request :
  route request = StaticAsset ->
  onFetch tag locate net request = Some (handleStaticAssetRequest tag locate net request).
Proof. intros H. unfold onFetch. now rewrite H. Qed.

(** The wallpaper branch is the GET requests under the wallpaper prefix. *)
Lemma route_wallpaper request :
  route request = Wallpaper <->
  method request = "GET" /\ startsWith (pathname request) "/wallpapers/" = true.
Proof.
  unfold route. destruct (String.eqb_spec (method request) "GET") as [E|E]; simpl.
  - destruct (startsWith (pathname request) "/wallpapers/").
    + tauto.
    + destruct (_ || _); split; intros H; try discriminate; destruct H; discriminate.
  - split; [discriminate|]. tauto.
Qed.

(** The static branch is the GET requests outside the wallpaper prefix
    whose path is ["/"] or ends in [.js], [.css] or [.html]. *)
Lemma route_static request :
  route request = StaticAsset <->
  method request = "GET" /\
  startsWith (pathname request) "/wallpapers/" = false /\
  endsWith (pathname request) ".js" || endsWith (pathname request) ".css"
    || String.eqb (pathname request) "/" || endsWith (pathname request) ".html" = true.
Proof.
  unfold route. destruct (String.eqb_spec (method request) "GET") as [E|E]; simpl.
  - destruct (startsWith (pathname request) "/wallpapers/").
    + split; [discriminate|]. intros (_ & H & _). discriminate.
    + destruct (_ || _); split; intros H; try discriminate; auto.
      destruct H as (_ & _ & H). discriminate.
  - split; [discriminate|]. tauto.
Qed.

(** C6, as amended. A GET request under the wallpaper prefix is answered
    by [handleWallpaperRequest]: with the cached response when some store
    holds one, nothing being fetched; otherwise, after one fetch, with the
    network's response when it is ok. That response is filed in the
    WALLPAPER store when the Cache API accepts it; when the Cache API
    refuses it (a partial response, a [Vary] header listing [*], a URL
    that is not http(s)) it is returned all the same and the WALLPAPER
    store holds what it held. No other store changes. When neither cache
    nor network gives a response the handler returns the built 404
    response. It never throws. *)
Theorem C6_wallpaper_cache_first request w :
  method request = "GET" ->
  startsWith (pathname request) "/wallpapers/" = true ->
  onFetch tag locate net request = Some (handleWallpaperRequest tag net request) /\
  (forall r, match_all (url request) (caches w) = Some r ->
     handleWallpaperRequest tag net request w = (Return r, w)) /\
  (forall r, match_all (url request) (caches w) = None ->
     net (url request) = Some r -> ok r = true ->
     exists w', handleWallpaperRequest tag net request w = (Return r, w') /\
       requests w' = requests w ++ [url request] /\
       lookup_store (WALLPAPER_CACHE_NAME tag) (caches w') =
         Some (if put_accepts (url request) r
               then <[url request := r]>
                      (default ∅ (lookup_store (WALLPAPER_CACHE_NAME tag) (caches w)))
               else default ∅ (lookup_store (WALLPAPER_CACHE_NAME tag) (caches w))) /\
       (put_accepts (url request) r = true ->
          exists store, lookup_store (WALLPAPER_CACHE_NAME tag) (caches w') = Some store /\
                        store !! url request = Some r) /\
       (forall name, name <> WALLPAPER_CACHE_NAME tag ->
          lookup_store name (caches w') = lookup_store name (caches w))) /\
  (match_all (url request) (caches w) = None ->
     (net (url request) = None \/ exists r, net (url request) = Some r /\ ok r = false) ->
     handleWallpaperRequest tag net request w =
       (Return unavailable,
        {| caches := caches w; requests := requests w ++ [url request] |})) /\
  (exists r, fst (handleWallpaperRequest tag net request w) = Return r).
Proof.
  intros Hget Hpre.
  assert (Hroute : route request = Wallpaper) by (apply route_wallpaper; auto).
  split; [now apply onFetch_wallpaper|].
  split; [intros r; apply wallpaper_hit|].
  split.
  { intros r Hm Hn Hok. eexists. split; [now apply wallpaper_miss_answered|]. simpl.
    split; [reflexivity|]. split; [apply lookup_stored|]. split.
    - intros Ha. rewrite lookup_stored, Ha. eexists. split; [reflexivity|].
      apply lookup_insert_eq.
    - intros name Hne. now apply lookup_stored_other. }
  split; [apply wallpaper_miss_failed|].
  destruct (match_all (url request) (caches w)) as [r|] eqn:Hm.
  - exists r. now rewrite (wallpaper_hit request w r Hm).
  - destruct (net (url request)) as [r|] eqn:Hn.
    + destruct (ok r) eqn:Hok.
      * exists r. now rewrite (wallpaper_miss_answered request w r Hm Hn Hok).
      * exists unavailable. rewrite wallpaper_miss_failed; eauto.
    + exists unavailable. rewrite wallpaper_miss_failed; auto.
Qed.

(** C10. For a GET request under the wallpaper prefix that no store holds,
    a network response that is not ok is neither returned nor stored: the
    handler returns the built 404 response and leaves every store as it
    was, exactly as it does when the network is down. *)
Theorem C10_not_ok_is_unavailable request w r :
  method request = "GET" ->
  startsWith (pathname request) "/wallpapers/" = true ->
  match_all (url request) (caches w) = None ->
  net (url request) = Some r ->
  ok r = false ->
  onFetch tag locate net request = Some (handleWallpaperRequest tag net request) /\
  handleWallpaperRequest tag net request w =
    (Return unavailable, {| caches := caches w; requests := requests w ++ [url request] |}) /\
  forall down : Network, down (url request) = None ->
    handleWallpaperRequest tag down request w =
    handleWallpaperRequest tag net request w.
Proof.
  intros Hget Hpre Hm Hn Hok.
  split; [apply onFetch_wallpaper, route_wallpaper; auto|].
  split; [apply wallpaper_miss_failed; eauto|].
  intros down Hd. rewrite (wallpaper_miss_failed request w Hm) by eauto.
  run. now rewrite Hm, Hd.
Qed.

(** C1, as amended. A GET request whose path is ["/"] or ends in [.js],
    [.css] or [.html] (and is not under the wallpaper prefix) is answered
    by [handleStaticAssetRequest]. When some store holds a copy, the copy
    is returned, nothing is fetched and no store changes. When no store
    holds a copy, the network is down and the request is a navigation, the
    cached ['/index.html'] is served if there is one, and the network
    error is passed on otherwise. *)
Theorem C1_static_cache_first request w :
  route request = StaticAsset ->
  onFetch tag locate net request = Some (handleStaticAssetRequest tag locate net request) /\
  (forall r, match_all (url request) (caches w) = Some r ->
     handleStaticAssetRequest tag locate net request w = (Return r, w)) /\
  (match_all (url request) (caches w) = None ->
   net (url request) = None ->
   mode request = navigate ->
   fst (handleStaticAssetRequest tag locate net request w) =
     match locate "/index.html" with
     | Some key =>
         match match_all key (caches w) with
         | Some index => Return index
         | None => Throw "TypeError: Failed to fetch"
         end
     | None => Throw "TypeError: Failed to parse URL"
     end).
Proof.
  intros Hroute.
  split; [now apply onFetch_static|].
  split; [intros r; apply static_hit|].
  intros Hm Hn Hnav. now rewrite static_navigate_fallback.
Qed.

End Handlers.

(** *** Activation *)

Lemma length_append (a b : string) :
  String.length (a +:+ b) = String.length a + String.length b.
Proof. induction a as [|ch a IH]; simpl; [reflexivity|now rewrite IH]. Qed.

Lemma substring_all (b : string) : substring 0 (String.length b) b = b.
Proof. induction b as [|ch b IH]; simpl; [reflexivity|now rewrite IH]. Qed.

Lemma substring_append (a b : string) :
  substring (String.length a) (String.length b) (a +:+ b) = b.
Proof. induction a as [|ch a IH]; simpl; [apply substring_all|exact IH]. Qed.

Lemma endsWith_append (a b : string) : endsWith (a +:+ b) b = true.
Proof.
  unfold endsWith. rewrite length_append.
  replace (String.length a + String.length b - String.length b) with (String.length a) by lia.
  rewrite substring_append, String.eqb_refl.
  apply andb_true_intro. split; [apply Nat.leb_le; lia|reflexivity].
Qed.

(** The deployment's own stores carry its tag. *)
Lemma own_store_carries_tag tag name :
  is_own_store tag name = true -> carries_tag tag name = true.
Proof.
  unfold is_own_store, carries_tag. intros H.
  apply orb_prop in H as [H|H]; [apply orb_prop in H as [H|H]|];
    apply String.eqb_eq in H; subst name.
  - apply (endsWith_append "desktop-clock").
  - apply (endsWith_append "desktop-clock-static").
  - apply (endsWith_append "desktop-clock-wallpapers").
Qed.

(** A name cannot carry two different tags of the same length. *)
Lemma carries_one_tag old new name :
  String.length old = String.length new ->
  carries_tag old name = true -> carries_tag new name = true -> old = new.
Proof.
  unfold carries_tag, endsWith. intros Hlen Ho Hn.
  assert (Hlen' : String.length ("-" +:+ old) = String.length ("-" +:+ new))
    by (rewrite !length_append; simpl; now rewrite Hlen).
  apply andb_prop in Ho as [_ Ho]. apply andb_prop in Hn as [_ Hn].
  apply String.eqb_eq in Ho. apply String.eqb_eq in Hn.
  rewrite Hlen', Hn in Ho. now inversion Ho.
Qed.

(** A version tag without hyphen, as v1 or v2. *)
Definition hyphen_free (t : string) : bool :=
  match index 0 "-" t with
  | None => true
  | Some _ => false
  end.

Lemma tier_word_has_hyphen t :
  hyphen_free ("static-" +:+ t) = false /\ hyphen_free ("wallpapers-" +:+ t) = false.
Proof. unfold hyphen_free. cbv [String.append]. split; destruct t; reflexivity. Qed.

(** A store of a deployment is a store of another one only when the tags
    are the same, or one of them contains a tier word. *)
Lemma own_store_of_two_tags old tag name :
  hyphen_free old = true -> hyphen_free tag = true ->
  In name [CACHE_NAME old; STATIC_CACHE_NAME old; WALLPAPER_CACHE_NAME old] ->
  is_own_store tag name = true -> old = tag.
Proof.
  intros Ho Ht Hin Hown.
  assert (Hs := tier_word_has_hyphen old). assert (Hs' := tier_word_has_hyphen tag).
  cbv [String.append] in Hs, Hs'.
  unfold is_own_store in Hown.
  apply orb_prop in Hown as [Hown|Hown]; [apply orb_prop in Hown as [Hown|Hown]|];
    apply String.eqb_eq in Hown; subst name;
    destruct Hin as [H|[H|[H|[]]]];
    unfold CACHE_NAME, STATIC_CACHE_NAME, WALLPAPER_CACHE_NAME in H;
    cbv [String.append] in H; try discriminate H; injection H as H;
    try exact H; subst; destruct Hs, Hs'; congruence.
Qed.

(** The condition of the activate listener, in one piece. *)
Lemma not_own_store tag name :
  negb (String.eqb name (CACHE_NAME tag))
  && negb (String.eqb name (STATIC_CACHE_NAME tag))
  && negb (String.eqb name (WALLPAPER_CACHE_NAME tag)) = negb (is_own_store tag name).
Proof. unfold is_own_store. now rewrite !negb_orb. Qed.

Lemma filter_all {A} (l : list A) : List.filter (fun _ => true) l = l.
Proof. induction l as [|x l IH]; simpl; [reflexivity|now rewrite IH]. Qed.

Lemma filter_twice {A} (f g : A -> bool) (l : list A) :
  List.filter f (List.filter g l) = List.filter (fun x => f x && g x) l.
Proof.
  induction l as [|x l IH]; simpl; [reflexivity|].
  destruct (g x); simpl; rewrite ?andb_true_r, ?andb_false_r.
  - destruct (f x); now rewrite IH.
  - exact IH.
Qed.

(** Whether the loop over [names] deletes the store called [n]. *)
Definition doomed (tag : string) (names : list string) (n : string) : bool :=
  existsb (fun m => String.eqb n m && negb (is_own_store tag m)) names.

Lemma activate_loop tag names w :
  for_of names (fun cacheName =>
    if negb (String.eqb cacheName (CACHE_NAME tag))
       && negb (String.eqb cacheName (STATIC_CACHE_NAME tag))
       && negb (String.eqb cacheName (WALLPAPER_CACHE_NAME tag))
    then caches_delete cacheName
    else mret tt) w =
  (Return tt,
   {| caches := List.filter (fun nc => negb (doomed tag names (fst nc))) (caches w);
      requests := requests w |}).
Proof.
  revert w. induction names as [|n names IH]; intros w.
  - simpl. unfold mret, Async_ret. rewrite filter_all. now destruct w.
  - cbn [for_of]. unfold mbind, Async_bind at 1. rewrite not_own_store.
    destruct (is_own_store tag n) eqn:Hown; simpl.
    + unfold mret at 1, Async_ret at 1. rewrite IH. do 2 f_equal.
      apply List.filter_ext. intros [m c]. simpl.
      now rewrite Hown, andb_false_r.
    + unfold caches_delete at 1. rewrite IH. simpl. rewrite filter_twice.
      do 2 f_equal. apply List.filter_ext. intros [m c]. simpl.
      rewrite Hown, andb_true_r, negb_orb. apply andb_comm.
Qed.

Lemma doomed_own tag names n :
  In n names -> doomed tag names n = negb (is_own_store tag n).
Proof.
  intros Hin. unfold doomed. destruct (is_own_store tag n) eqn:Hown; simpl.
  - apply not_true_is_false. intros H. apply existsb_exists in H as (m & _ & H).
    apply andb_prop in H as [E H]. apply String.eqb_eq in E. subst m.
    rewrite Hown in H. discriminate.
  - apply existsb_exists. exists n. split; [exact Hin|].
    now rewrite String.eqb_refl, Hown.
Qed.

Lemma onActivate_caches tag w :
  onActivate tag w =
  (Return tt,
   {| caches := List.filter (fun nc => is_own_store tag (fst nc)) (caches w);
      requests := requests w |}).
Proof.
  unfold onActivate, mbind, Async_bind, caches_keys. rewrite activate_loop.
  do 2 f_equal. apply List.filter_ext_in. intros [n c] Hin. simpl.
  rewrite doomed_own; [apply negb_involutive|].
  apply in_map_iff. now exists (n, c).
Qed.

Lemma lookup_store_filter_own tag name cs :
  lookup_store name (List.filter (fun nc => is_own_store tag (fst nc)) cs) =
  if is_own_store tag name then lookup_store name cs else None.
Proof.
  induction cs as [|[n c] cs IH]; simpl.
  - now destruct (is_own_store tag name).
  - destruct (is_own_store tag n) eqn:Hn; simpl.
    + destruct (String.eqb_spec n name) as [->|Hne]; [now rewrite Hn|exact IH].
    + rewrite IH. destruct (String.eqb_spec n name) as [->|Hne]; [now rewrite Hn|reflexivity].
Qed.

(** C7. Activation enumerates the stores and keeps exactly those named by
    one of the deployment's three names. So a store whose name does not
    carry the deployment's tag is deleted, and the deployment's own stores
    stay with their entries. Activating after a deployment with another
    tag deletes the stores of the older one: every store that carries the
    older tag when the two tags have the same length (as v1 and v2), and
    the three stores of the older deployment when the tags have no
    hyphen. *)
Theorem C7_activation_deletes_other_versions tag w :
  exists w',
    onActivate tag w = (Return tt, w') /\
    caches w' = List.filter (fun nc => is_own_store tag (fst nc)) (caches w) /\
    (forall name, carries_tag tag name = false -> lookup_store name (caches w') = None) /\
    (forall name, is_own_store tag name = true ->
       lookup_store name (caches w') = lookup_store name (caches w)) /\
    (forall old name, String.length old = String.length tag -> old <> tag ->
       carries_tag old name = true -> lookup_store name (caches w') = None) /\
    (forall old name, hyphen_free old = true -> hyphen_free tag = true -> old <> tag ->
       In name [CACHE_NAME old; STATIC_CACHE_NAME old; WALLPAPER_CACHE_NAME old] ->
       lookup_store name (caches w') = None).
Proof.
  eexists. split; [apply onActivate_caches|]. simpl.
  split; [reflexivity|].
  assert (Hgone : forall name, carries_tag tag name = false ->
            lookup_store name
              (List.filter (fun nc => is_own_store tag (fst nc)) (caches w)) = None).
  { intros name Hc. rewrite lookup_store_filter_own.
    destruct (is_own_store tag name) eqn:Hown; [|reflexivity].
    apply own_store_carries_tag in Hown. congruence. }
  split; [exact Hgone|].
  split; [intros name Hown; now rewrite lookup_store_filter_own, Hown|].
  split.
  - intros old name Hlen Hne Hold. apply Hgone.
    destruct (carries_tag tag name) eqn:Hnew; [|reflexivity].
    exfalso. apply Hne. now apply (carries_one_tag old tag name).
  - intros old name Ho Ht Hne Hin. rewrite lookup_store_filter_own.
    destruct (is_own_store tag name) eqn:Hown; [|reflexivity].
    exfalso. apply Hne. now apply (own_store_of_two_tags old tag name).
Qed.

(** *** Seeding the wallpaper store *)

Lemma update_store_id name cs : update_store name (fun c => c) cs = cs.
Proof.
  induction cs as [|[n c] cs IH]; simpl; [reflexivity|].
  destruct (String.eqb n name); [reflexivity|now rewrite IH].
Qed.

Lemma update_store_twice name f g cs :
  update_store name f (update_store name g cs) = update_store name (fun c => f (g c)) cs.
Proof.
  induction cs as [|[n c] cs IH]; simpl; [reflexivity|].
  destruct (String.eqb n name) eqn:E; simpl; rewrite E; [reflexivity|now rewrite IH].
Qed.

Lemma update_store_fixed name f cs :
  (forall c, lookup_store name cs = Some c -> f c = c) ->
  update_store name f cs = cs.
Proof.
  induction cs as [|[n c] cs IH]; simpl; intros H; [reflexivity|].
  destruct (String.eqb n name) eqn:E.
  - now rewrite H.
  - now rewrite IH.
Qed.

Section Seeding.

Variable tag : string.
Variable locate : Locator.
Variable net : Network.

(** What the loop of [cacheWallpapers] does, for one image, to the store:
    the response is written under the URL of the image when the string
    parses, the network answers with an ok response and the Cache API
    accepts it. *)
Definition put_if_ok (c : gmap string Response) (src : string) : gmap string Response :=
  match locate src with
  | Some key =>
      match net key with
      | Some r => if ok r && put_accepts key r then <[key := r]> c else c
      | None => c
      end
  | None => c
  end.

Lemma seed_loop cache images w :
  for_of images (fun src =>
    try_catch
      (response ← fetch_url locate net src;
       if ok response then cache_put_url locate cache src response else mret tt)
      (fun _ => mret tt)) w =
  (Return tt,
   {| caches := update_store cache (fun c => fold_left put_if_ok images c) (caches w);
      requests := requests w ++ omap locate images |}).
Proof.
  revert w. induction images as [|src images IH]; intros w.
  - simpl. unfold mret, Async_ret. rewrite update_store_id, app_nil_r. now destruct w.
  - cbn [for_of]. unfold mbind at 1, Async_bind at 1.
    unfold try_catch, fetch_url, cache_put_url, new_Request, mbind, Async_bind, fetch,
      cache_put, mret, Async_ret.
    cbn [fold_left omap list_omap]. unfold put_if_ok at 2.
    destruct (locate src) as [key|]; [|rewrite IH; reflexivity].
    destruct (net key) as [r|]; [destruct (ok r); [destruct (put_accepts key r)|]|];
      rewrite IH; simpl; rewrite ?update_store_twice, <- ?app_assoc; reflexivity.
Qed.

Lemma cacheWallpapers_run images w :
  cacheWallpapers tag locate net images w =
  (Return tt,
   {| caches := update_store (WALLPAPER_CACHE_NAME tag)
                  (fun c => fold_left put_if_ok images c)
                  (opened (WALLPAPER_CACHE_NAME tag) (caches w));
      requests := requests w ++ omap locate images |}).
Proof.
  unfold cacheWallpapers. unfold try_catch at 1, mbind at 1, Async_bind at 1.
  unfold caches_open, opened.
  destruct (lookup_store (WALLPAPER_CACHE_NAME tag) (caches w));
    cbv beta iota; now rewrite seed_loop.
Qed.

(** Whether the loop stores the response of the network under a URL. *)
Definition seeds (key : string) : bool :=
  match net key with
  | Some r => ok r && put_accepts key r
  | None => false
  end.

(** An entry that already holds what the network serves survives the loop. *)
Lemma seeded_keeps images c key r :
  net key = Some r -> c !! key = Some r ->
  fold_left put_if_ok images c !! key = Some r.
Proof.
  intros Hn. revert c. induction images as [|x images IH]; intros c Hc; [exact Hc|].
  cbn [fold_left]. apply IH. unfold put_if_ok.
  destruct (locate x) as [kx|]; [|exact Hc].
  destruct (net kx) as [rx|] eqn:Hx; [|exact Hc].
  destruct (ok rx && put_accepts kx rx); [|exact Hc].
  destruct (decide (kx = key)) as [->|Hne].
  - rewrite lookup_insert_eq. congruence.
  - now rewrite lookup_insert_ne.
Qed.

(** After the loop every image the network served and the Cache API
    accepted holds its response. *)
Lemma seeded_holds images c src key r :
  In src images -> locate src = Some key -> net key = Some r ->
  ok r = true -> put_accepts key r = true ->
  fold_left put_if_ok images c !! key = Some r.
Proof.
  intros Hin Hl Hn Hok Ha. revert c.
  induction images as [|x images IH]; intros c; [destruct Hin|].
  cbn [fold_left]. destruct Hin as [->|Hin]; [|now apply IH].
  apply seeded_keeps; [exact Hn|].
  unfold put_if_ok. rewrite Hl, Hn, Hok, Ha. apply lookup_insert_eq.
Qed.

(** A key the loop does not write keeps what it held. *)
Lemma seeded_untouched images (c : gmap string Response) key :
  (forall src, In src images -> locate src = Some key -> seeds key = false) ->
  fold_left put_if_ok images c !! key = c !! key.
Proof.
  revert c. induction images as [|x images IH]; intros c Hn; [reflexivity|].
  cbn [fold_left]. rewrite IH by (intros src Hs; apply Hn; now right).
  unfold put_if_ok. destruct (locate x) as [kx|] eqn:Hx; [|reflexivity].
  destruct (net kx) as [r|] eqn:Hr; [|reflexivity].
  destruct (ok r && put_accepts kx r) eqn:Hs; [|reflexivity].
  apply lookup_insert_ne. intros ->.
  specialize (Hn x (or_introl eq_refl) Hx). unfold seeds in Hn.
  rewrite Hr, Hs in Hn. discriminate.
Qed.

(** A store that holds all of that is left as it is by the loop. *)
Lemma seeded_fixed images c :
  (forall src key r, In src images -> locate src = Some key -> net key = Some r ->
     ok r = true -> put_accepts key r = true -> c !! key = Some r) ->
  fold_left put_if_ok images c = c.
Proof.
  revert c. induction images as [|x images IH]; intros c H; [reflexivity|].
  cbn [fold_left].
  assert (Hx : put_if_ok c x = c).
  { unfold put_if_ok. destruct (locate x) as [kx|] eqn:Hl; [|reflexivity].
    destruct (net kx) as [r|] eqn:Hn; [|reflexivity].
    destruct (ok r) eqn:Hok; [|reflexivity].
    destruct (put_accepts kx r) eqn:Ha; [|reflexivity]. simpl.
    apply insert_id, (H x kx r); auto. now left. }
  rewrite Hx. apply IH. intros src key r Hin. apply H. now right.
Qed.

Lemma seeding_twice images c :
  fold_left put_if_ok images (fold_left put_if_ok images c) = fold_left put_if_ok images c.
Proof. apply seeded_fixed. intros src key r. apply seeded_holds. Qed.

(** The stores after sending the same images a second time are the stores
    after the first time. *)
Lemma cacheWallpapers_twice images w :
  caches (snd (cacheWallpapers tag locate net images
                 (snd (cacheWallpapers tag locate net images w)))) =
  caches (snd (cacheWallpapers tag locate net images w)).
Proof.
  rewrite (cacheWallpapers_run images w). cbn [snd].
  set (W := WALLPAPER_CACHE_NAME tag).
  set (cs := update_store W (fun c => fold_left put_if_ok images c) (opened W (caches w))).
  rewrite cacheWallpapers_run. cbn [snd caches]. fold W.
  assert (Hcs : lookup_store W cs =
                Some (fold_left put_if_ok images (default ∅ (lookup_store W (caches w))))).
  { unfold cs. now rewrite lookup_update_store, lookup_store_opened. }
  unfold opened. rewrite Hcs. apply update_store_fixed.
  intros c Hc. rewrite Hcs in Hc. injection Hc as <-. apply seeding_twice.
Qed.

End Seeding.

(** *** The status report *)

Lemma lookup_store_keys name cs :
  In name (map fst cs) -> exists c, lookup_store name cs = Some c.
Proof.
  induction cs as [|[n c] cs IH]; simpl; [tauto|].
  intros [->|Hin].
  - rewrite String.eqb_refl. eauto.
  - destruct (String.eqb n name); eauto.
Qed.

Lemma lookup_store_is_key name cs c :
  lookup_store name cs = Some c -> In name (map fst cs).
Proof.
  induction cs as [|[n c'] cs IH]; simpl; [discriminate|].
  destruct (String.eqb_spec n name) as [->|Hne]; [now left|]. intros H. right. now apply IH.
Qed.

(** The entry count of a store, as the status report gives it. *)
Definition entry_count (name : string) (cs : CacheStorage) : nat :=
  from_option size 0 (lookup_store name cs).

Lemma count_stores_run names st w :
  (forall n, In n names -> In n (map fst (caches w))) ->
  count_stores names st w =
  (Return (fold_left (fun st n => set_property n (entry_count n (caches w)) st) names st), w).
Proof.
  revert st. induction names as [|n names IH]; intros st H; [reflexivity|].
  cbn [count_stores fold_left].
  unfold mbind at 1, Async_bind at 1, caches_open.
  destruct (lookup_store_keys n (caches w)) as [c Hc]; [apply H; now left|].
  rewrite Hc. unfold mbind at 1, Async_bind at 1, cache_keys_length.
  rewrite IH; [reflexivity|]. intros m Hm. apply H. now right.
Qed.

Lemma getCacheStatus_run w :
  getCacheStatus w =
  (Return (fold_left (fun st n => set_property n (entry_count n (caches w)) st)
                     (map fst (caches w)) ∅), w).
Proof.
  unfold getCacheStatus, try_catch, mbind, Async_bind, caches_keys.
  now rewrite count_stores_run.
Qed.

(** A name other than ["__proto__"] that the loop meets gets its count. *)
Lemma status_lookup (count : string -> nat) names (st : gmap string nat) n :
  In n names -> n <> "__proto__" ->
  fold_left (fun st n => set_property n (count n) st) names st !! n = Some (count n).
Proof.
  revert st. induction names as [|m names IH] using rev_ind; intros st Hin Hp; [destruct Hin|].
  rewrite fold_left_app. cbn [fold_left]. unfold set_property at 1.
  destruct (String.eqb_spec m "__proto__") as [->|Hm].
  - apply IH; [|exact Hp]. apply in_app_or in Hin as [Hin|[Hin|[]]]; [exact Hin|congruence].
  - destruct (decide (m = n)) as [->|Hne]; [apply lookup_insert_eq|].
    rewrite lookup_insert_ne by exact Hne. apply IH; [|exact Hp].
    apply in_app_or in Hin as [Hin|[Hin|[]]]; [exact Hin|contradiction].
Qed.

(** A name the loop does not meet, and the name ["__proto__"], keep what
    the object held. *)
Lemma status_lookup_other (count : string -> nat) names (st : gmap string nat) n :
  ~ In n names \/ n = "__proto__" ->
  fold_left (fun st n => set_property n (count n) st) names st !! n = st !! n.
Proof.
  revert st. induction names as [|m names IH]; intros st Hn; [reflexivity|].
  cbn [fold_left]. rewrite IH by (destruct Hn as [Hn|Hn]; [left; intros H; apply Hn; now right|now right]).
  unfold set_property. destruct (String.eqb_spec m "__proto__") as [->|Hm]; [reflexivity|].
  apply lookup_insert_ne. intros ->. destruct Hn as [Hn|Hn]; [apply Hn; now left|contradiction].
Qed.

Lemma wallpaper_store_is_not_proto tag : WALLPAPER_CACHE_NAME tag <> "__proto__".
Proof. unfold WALLPAPER_CACHE_NAME. cbv [String.append]. discriminate. Qed.

(** C8. Sending CACHE_WALLPAPERS with the same images a second time, the
    network answering as it did the first time, leaves the stores as the
    first message left them: entries are overwritten, none is added. So
    the WALLPAPER store has the same entry count, and the status report is
    the same. *)
Theorem C8_cache_set_idempotent tag locate net images w :
  let once := snd (onMessage tag locate net (CACHE_WALLPAPERS images) w) in
  let twice := snd (onMessage tag locate net (CACHE_WALLPAPERS images) once) in
  caches twice = caches once /\
  entry_count (WALLPAPER_CACHE_NAME tag) (caches twice) =
    entry_count (WALLPAPER_CACHE_NAME tag) (caches once) /\
  (exists st, fst (onMessage tag locate net GET_CACHE_STATUS once) = Return (Some st) /\
              fst (onMessage tag locate net GET_CACHE_STATUS twice) = Return (Some st) /\
              st !! WALLPAPER_CACHE_NAME tag =
                Some (entry_count (WALLPAPER_CACHE_NAME tag) (caches once))).
Proof.
  intros once twice.
  assert (Hsnd : forall v, snd (onMessage tag locate net (CACHE_WALLPAPERS images) v) =
                           snd (cacheWallpapers tag locate net images v)).
  { intros v. unfold onMessage, mbind, Async_bind. rewrite cacheWallpapers_run. reflexivity. }
  assert (Heq : caches twice = caches once).
  { unfold twice, once. rewrite !Hsnd. apply cacheWallpapers_twice. }
  split; [exact Heq|]. split; [now rewrite Heq|].
  assert (Hin : In (WALLPAPER_CACHE_NAME tag) (map fst (caches once))).
  { unfold once. rewrite Hsnd, cacheWallpapers_run. simpl.
    eapply lookup_store_is_key. now rewrite lookup_update_store, lookup_store_opened. }
  eexists. unfold onMessage, mbind, Async_bind, mret, Async_ret.
  rewrite !getCacheStatus_run, Heq. simpl.
  split; [reflexivity|]. split; [reflexivity|].
  apply (status_lookup (fun n => entry_count n (caches once))); [exact Hin|].
  apply wallpaper_store_is_not_proto.
Qed.

Import Samples.

(** C6 as amended, at a wallpaper request against empty stores: online,
    offline, and answered with a part of the file. *)
Lemma C6_wallpaper_cache_first_witness :
  method wallpaper_request = "GET" /\
  startsWith (pathname wallpaper_request) "/wallpapers/" = true /\
  handleWallpaperRequest "v1" online wallpaper_request no_stores =
    (Return jpeg, {| caches := [("desktop-clock-wallpapers-v1", {[a_jpg := jpeg]})];
                     requests := [a_jpg] |}) /\
  fst (handleWallpaperRequest "v1" offline wallpaper_request no_stores) = Return unavailable /\
  exists w', handleWallpaperRequest "v1" ranged wallpaper_request no_stores
               = (Return partial_jpeg, w') /\
             lookup_store "desktop-clock-wallpapers-v1" (caches w') = Some ∅.
Proof.
  split; [reflexivity|]. split; [reflexivity|].
  destruct (C6_wallpaper_cache_first "v1" here online wallpaper_request no_stores
              eq_refl eq_refl) as (_ & _ & Hok & _).
  destruct (C6_wallpaper_cache_first "v1" here offline wallpaper_request no_stores
              eq_refl eq_refl) as (_ & _ & _ & Hdown & _).
  destruct (C6_wallpaper_cache_first "v1" here ranged wallpaper_request no_stores
              eq_refl eq_refl) as (_ & _ & Hpart & _).
  split; [reflexivity|]. split.
  - rewrite Hdown; [reflexivity|reflexivity|now left].
  - destruct (Hpart partial_jpeg eq_refl eq_refl eq_refl) as (w' & E & _ & Hs & _).
    exists w'. split; [exact E|]. exact Hs.
Defined.

(** C6 as stated fails: a wallpaper request that the server answers with
    206 Partial Content gets that response, which is a successful one,
    and no store holds it afterwards: the WALLPAPER store is empty. *)
Lemma C6_partial_response_is_not_stored :
  method wallpaper_request = "GET" /\
  startsWith (pathname wallpaper_request) "/wallpapers/" = true /\
  match_all (url wallpaper_request) (caches no_stores) = None /\
  ranged (url wallpaper_request) = Some partial_jpeg /\
  ok partial_jpeg = true /\
  handleWallpaperRequest "v1" ranged wallpaper_request no_stores =
    (Return partial_jpeg,
     {| caches := [("desktop-clock-wallpapers-v1", ∅)]; requests := [a_jpg] |}) /\
  ~ (exists w' store,
       handleWallpaperRequest "v1" ranged wallpaper_request no_stores
         = (Return partial_jpeg, w') /\
       lookup_store "desktop-clock-wallpapers-v1" (caches w') = Some store /\
       store !! url wallpaper_request = Some partial_jpeg).
Proof.
  repeat (split; [reflexivity|]).
  intros (w' & store & E & Hs & Hk).
  change (handleWallpaperRequest "v1" ranged wallpaper_request no_stores)
    with (Return partial_jpeg,
          {| caches := [("desktop-clock-wallpapers-v1", (∅ : gmap string Response))];
             requests := [a_jpg] |}) in E.
  injection E as <-. simpl in Hs. injection Hs as <-.
  rewrite lookup_empty in Hk. discriminate.
Qed.

(** C10 at a wallpaper request that the server answers with a 404. *)
Lemma C10_not_ok_is_unavailable_witness :
  method wallpaper_request = "GET" /\
  startsWith (pathname wallpaper_request) "/wallpapers/" = true /\
  match_all (url wallpaper_request) (caches no_stores) = None /\
  missing (url wallpaper_request) = Some not_found /\
  ok not_found = false /\
  handleWallpaperRequest "v1" missing wallpaper_request no_stores =
    (Return unavailable, {| caches := []; requests := [a_jpg] |}).
Proof.
  repeat (split; [reflexivity|]).
  destruct (C10_not_ok_is_unavailable "v1" here missing wallpaper_request no_stores not_found
              eq_refl eq_refl eq_refl eq_refl eq_refl) as (_ & H & _).
  exact H.
Defined.

(** C1 as stated fails: with ['/index.html'] cached and the network serving
    a newer copy, the handler returns the cached copy and the worker's
    world is left as it was: no fetch is issued and the store keeps the old
    copy. *)
Lemma C1_no_background_refresh :
  route index_request = StaticAsset /\
  match_all (url index_request) (caches shell_cached) = Some shell_old /\
  online (url index_request) = Some shell_new /\
  handleStaticAssetRequest "v1" here online index_request shell_cached
    = (Return shell_old, shell_cached) /\
  ~ (exists w', handleStaticAssetRequest "v1" here online index_request shell_cached
                  = (Return shell_old, w') /\
                requests w' <> requests shell_cached).
Proof.
  repeat (split; [reflexivity|]).
  intros (w' & E & Hne). apply Hne.
  change (handleStaticAssetRequest "v1" here online index_request shell_cached)
    with (Return shell_old, shell_cached) in E.
  now inversion E.
Qed.

(** C1 as amended, at a cached ['/index.html'] and at an offline navigation
    to ['/']. *)
Lemma C1_static_cache_first_witness :
  route root_request = StaticAsset /\
  handleStaticAssetRequest "v1" here online index_request shell_cached
    = (Return shell_old, shell_cached) /\
  fst (handleStaticAssetRequest "v1" here offline root_request shell_cached) = Return shell_old.
Proof.
  split; [reflexivity|].
  split.
  - destruct (C1_static_cache_first "v1" here online index_request shell_cached eq_refl)
      as (_ & Hhit & _).
    apply Hhit. reflexivity.
  - destruct (C1_static_cache_first "v1" here offline root_request shell_cached eq_refl)
      as (_ & _ & Hfall).
    rewrite Hfall; reflexivity.
Defined.

(** C7 at the activation of v2 over the stores v1 left. *)
Lemma C7_activation_deletes_other_versions_witness :
  caches (snd (onActivate "v2" after_v1)) =
    [("desktop-clock-static-v2", {[index_html := shell_new]})] /\
  lookup_store "desktop-clock-wallpapers-v1" (caches (snd (onActivate "v2" after_v1))) = None.
Proof.
  destruct (C7_activation_deletes_other_versions "v2" after_v1)
    as (w' & E & Hc & _ & _ & Hold & _).
  rewrite E. cbn [snd]. split.
  - rewrite Hc. reflexivity.
  - apply (Hold "v1"); [reflexivity|discriminate|reflexivity].
Defined.

(** C8 at two images sent twice to a worker with no store yet. *)
Lemma C8_cache_set_idempotent_witness :
  let images := ["/wallpapers/nature/a.jpg"; "/wallpapers/nature/b.jpg"] in
  let once := snd (onMessage "v1" here gallery (CACHE_WALLPAPERS images) no_stores) in
  let twice := snd (onMessage "v1" here gallery (CACHE_WALLPAPERS images) once) in
  entry_count "desktop-clock-wallpapers-v1" (caches once) = 2 /\
  entry_count "desktop-clock-wallpapers-v1" (caches twice) = 2 /\
  length (requests twice) = 4.
Proof.
  intros images once twice.
  destruct (C8_cache_set_idempotent "v1" here gallery images no_stores) as (_ & H & _).
  split; [reflexivity|]. split; [|reflexivity].
  transitivity (entry_count (WALLPAPER_CACHE_NAME "v1") (caches once));
    [exact H|reflexivity].
Defined.

End ServiceWorkerFacts.

(** * Properties of the UI side of the control channel *)
Module ServiceWorkerClientFacts.
Import ServiceWorkerClient.

(** A settled promise ignores every later task. *)
Lemma settled_stays {A} (ts : list (Task A)) (p : PromiseState A) :
  p <> Pending -> fold_left run_task ts p = p.
Proof.
  revert p. induction ts as [|t ts IH]; intros p Hp; [reflexivity|].
  cbn [fold_left].
  assert (E : run_task p t = p) by (destruct p, t; simpl; congruence).
  rewrite E. now apply IH.
Qed.

(** The promise is settled once the tasks have run: the timer always fires. *)
Lemma send_settles {A} (env : Environment A) : sendMessageToServiceWorker env <> Pending.
Proof.
  unfold sendMessageToServiceWorker, tasks.
  destruct (controller env); [|discriminate].
  destruct (reply env) as [[t data]|]; [|discriminate].
  destruct (_ || _); discriminate.
Qed.

(** A reply that arrives before the timer is what the promise fulfils with. *)
Lemma send_reply_in_time {A} (env : Environment A) t data :
  controller env = true -> reply env = Some (t, data) -> (t < TIMEOUT_MS)%N ->
  sendMessageToServiceWorker env = Fulfilled data.
Proof.
  intros Hc Hr Ht. unfold sendMessageToServiceWorker, tasks. rewrite Hc, Hr.
  apply N.ltb_lt in Ht. now rewrite Ht.
Qed.

(** A reply due at the very millisecond of the timer wins or loses with
    the order in which the event loop takes the two tasks. *)
Lemma send_reply_on_time {A} (env : Environment A) data :
  controller env = true -> reply env = Some (TIMEOUT_MS, data) ->
  sendMessageToServiceWorker env =
    if reply_first env then Fulfilled data else Rejected "Service Worker message timeout".
Proof.
  intros Hc Hr. unfold sendMessageToServiceWorker, tasks. rewrite Hc, Hr.
  rewrite N.ltb_irrefl, N.eqb_refl. simpl. now destruct (reply_first env).
Qed.

(** Without a reply before the timer, or without a controlling worker, the
    promise rejects. *)
Lemma send_rejects {A} (env : Environment A) :
  controller env = false \/ reply env = None \/
    (exists t data, reply env = Some (t, data) /\ (TIMEOUT_MS < t)%N) ->
  exists reason, sendMessageToServiceWorker env = Rejected reason.
Proof.
  unfold sendMessageToServiceWorker, tasks.
  intros [Hc|H]; [rewrite Hc; simpl; eauto|].
  destruct (controller env); [|simpl; eauto].
  destruct H as [Hr|(t & data & Hr & Ht)]; rewrite Hr; [simpl; eauto|].
  assert (E1 : (t <? TIMEOUT_MS)%N = false) by (apply N.ltb_ge; lia).
  assert (E2 : (t =? TIMEOUT_MS)%N = false) by (apply N.eqb_neq; lia).
  rewrite E1, E2. simpl. eauto.
Qed.

(** [getCacheStatus] never raises and never hangs. *)
Lemma getCacheStatus_returns env : exists st, getCacheStatus env = Returns st.
Proof.
  unfold getCacheStatus. pose proof (send_settles env) as H.
  destruct (sendMessageToServiceWorker env); [contradiction|eauto|eauto].
Qed.

(** C9. The timer of a status request is set to 5000 milliseconds, and it
    decides: on a page that a worker controls, a reply that arrives
    before 5000 ms is what [getCacheStatus] returns, and a reply that
    arrives later, or never, gives the empty status (at exactly 5000 ms
    the reply counts when the event loop takes it before the timer).
    When no worker controls the page the result is the empty status
    too. In every case the call returns: it does not raise. *)
Theorem C9_status_degrades_to_empty (env : Environment (gmap string nat)) :
  TIMEOUT_MS = 5000%N /\
  (controller env = false \/ reply env = None \/
     (exists t data, reply env = Some (t, data) /\ (5000 < t)%N) ->
   getCacheStatus env = Returns ∅) /\
  (forall t data, controller env = true -> reply env = Some (t, data) -> (t < 5000)%N ->
     getCacheStatus env = Returns data) /\
  (forall data, controller env = true -> reply env = Some (5000%N, data) ->
     getCacheStatus env = Returns (if reply_first env then data else ∅)) /\
  (exists st, getCacheStatus env = Returns st).
Proof.
  split; [reflexivity|]. split; [|split; [|split]].
  - intros H. unfold getCacheStatus. destruct (send_rejects env H) as [reason E].
    now rewrite E.
  - intros t data Hc Hr Ht. unfold getCacheStatus.
    now rewrite (send_reply_in_time env t data Hc Hr Ht).
  - intros data Hc Hr. unfold getCacheStatus.
    rewrite (send_reply_on_time env data Hc Hr). now destruct (reply_first env).
  - apply getCacheStatus_returns.
Qed.

(** C9 at a reply that arrives one millisecond before the timer, and at
    one that arrives one millisecond after it. *)
Lemma C9_status_degrades_to_empty_witness :
  let report : gmap string nat := {["desktop-clock-v1" := 3]} in
  let early := {| controller := true; reply := Some (4999%N, report); reply_first := false |} in
  let late := {| controller := true; reply := Some (5001%N, report); reply_first := true |} in
  getCacheStatus early = Returns report /\
  getCacheStatus late = Returns ∅.
Proof.
  intros report early late. split.
  - destruct (C9_status_degrades_to_empty early) as (_ & _ & H & _).
    apply (H 4999%N report); reflexivity.
  - destruct (C9_status_degrades_to_empty late) as (_ & H & _).
    apply H. right. right. exists 5001%N, report. split; reflexivity.
Defined.

End ServiceWorkerClientFacts.

(** * Properties of the rotation hook *)

(** ** The rounded product behind a random index *)
Module RandomIndexFacts.
Import WallpaperRotation.

Local Open Scope Z_scope.

Lemma draw_bounds (u : Draw) :
  0 <= mantissa u < 2 ^ 53 /\ 53 <= exponent u <= 1074.
Proof.
  pose proof (is_binary64 u) as H.
  apply andb_prop in H as [H H4]. apply andb_prop in H as [H H3].
  apply andb_prop in H as [H1 H2].
  apply Z.leb_le in H1, H3, H4. apply Z.ltb_lt in H2. lia.
Qed.

(** A draw with a given mantissa and exponent. *)
Lemma draw_of (m e : Z) :
  0 <= m < 2 ^ 53 -> 53 <= e <= 1074 ->
  exists u, mantissa u = m /\ exponent u = e.
Proof.
  intros Hm He.
  assert (H : ((0 <=? m) && (m <? 2 ^ 53) && (53 <=? e) && (e <=? 1074)) = true).
  { apply andb_true_intro. split; [apply andb_true_intro; split;
      [apply andb_true_intro; split|]|].
    - apply Z.leb_le. lia.
    - apply Z.ltb_lt. lia.
    - apply Z.leb_le. lia.
    - apply Z.leb_le. lia. }
  exists {| mantissa := m; exponent := e; is_binary64 := H |}. split; reflexivity.
Qed.

(** A product of at most 53 bits is a binary64 number as it is. *)
Lemma round53_exact p : p < 2 ^ 53 -> round53 p = p.
Proof.
  intros Hp. unfold round53.
  assert (Hk : Z.log2 p - 52 <= 0).
  { destruct (Z.le_gt_cases p 0) as [H0|H0].
    - rewrite Z.log2_nonpos by exact H0. lia.
    - assert (Z.log2 p < 53) by (apply Z.log2_lt_pow2; lia). lia. }
  apply Z.leb_le in Hk. now rewrite Hk.
Qed.

(** What is known of a product with [k > 0] bits in excess. *)
Lemma excess_bits p k :
  k = Z.log2 p - 52 -> 0 < k ->
  0 < 2 ^ (k - 1) /\ 2 ^ k = 2 * 2 ^ (k - 1) /\
  2 ^ 53 * 2 ^ (k - 1) <= p /\
  2 ^ 52 <= p / 2 ^ k /\
  p = p / 2 ^ k * 2 ^ k + p mod 2 ^ k /\ 0 <= p mod 2 ^ k < 2 ^ k.
Proof.
  intros Hk Hpos.
  assert (Hp : 0 < p).
  { destruct (Z.le_gt_cases p 0) as [H0|H0]; [|exact H0].
    rewrite Z.log2_nonpos in Hk by exact H0. lia. }
  assert (Hlog : 2 ^ Z.log2 p <= p) by (apply Z.log2_spec, Hp).
  assert (H2k : 2 ^ k = 2 * 2 ^ (k - 1)).
  { replace k with (Z.succ (k - 1)) at 1 by lia. apply Z.pow_succ_r. lia. }
  assert (Hhalf : 0 < 2 ^ (k - 1)) by (apply Z.pow_pos_nonneg; lia).
  assert (Hsplit : 2 ^ Z.log2 p = 2 ^ 52 * 2 ^ k).
  { replace (Z.log2 p) with (52 + k) by lia. apply Z.pow_add_r; lia. }
  split; [exact Hhalf|]. split; [exact H2k|].
  split; [rewrite Hsplit, H2k in Hlog; lia|].
  split.
  { apply Z.div_le_lower_bound; [lia|]. rewrite Hsplit in Hlog. lia. }
  split.
  { rewrite (Z.mul_comm (p / 2 ^ k)). apply Z.div_mod. lia. }
  apply Z.mod_pos_bound. lia.
Qed.

(** Rounding does not go below a binary64 number that the exact product
    reaches: such a number bounds the rounded product from below. *)
Lemma round53_lower p i e :
  0 <= e -> 0 <= i <= 2 ^ 53 -> i * 2 ^ e <= p -> i * 2 ^ e <= round53 p.
Proof.
  intros He Hi Hp. unfold round53.
  destruct (Z.leb_spec (Z.log2 p - 52) 0) as [Hk|Hk]; [exact Hp|].
  set (k := Z.log2 p - 52) in *.
  destruct (excess_bits p k eq_refl Hk) as (Hhalf & H2k & Hlow & Hq & Hdiv & Hmod).
  set (q := p / 2 ^ k) in *. set (r := p mod 2 ^ k) in *.
  assert (Hfloor : i * 2 ^ e <= q * 2 ^ k).
  { destruct (Z.le_gt_cases k e) as [Hke|Hke].
    - assert (Hpow : 2 ^ e = 2 ^ (e - k) * 2 ^ k).
      { replace e with ((e - k) + k) at 1 by lia. apply Z.pow_add_r; lia. }
      assert (Hle : i * 2 ^ (e - k) <= q).
      { unfold q. apply Z.div_le_lower_bound; [lia|]. rewrite Hpow in Hp. lia. }
      rewrite Hpow. nia.
    - assert (Hpow : 2 ^ k = 2 ^ (k - e) * 2 ^ e).
      { replace k with ((k - e) + e) at 1 by lia. apply Z.pow_add_r; lia. }
      assert (H2 : 2 <= 2 ^ (k - e)).
      { change 2 with (2 ^ 1) at 1. apply Z.pow_le_mono_r; lia. }
      assert (H0 : 0 < 2 ^ e) by (apply Z.pow_pos_nonneg; lia).
      rewrite Hpow. nia. }
  destruct (_ || _); nia.
Qed.

(** Rounding adds at most one part in 2^53. *)
Lemma round53_upper p : 0 <= p -> 2 ^ 53 * round53 p <= (2 ^ 53 + 1) * p.
Proof.
  intros Hp. unfold round53.
  destruct (Z.leb_spec (Z.log2 p - 52) 0) as [Hk|Hk]; [lia|].
  set (k := Z.log2 p - 52) in *.
  destruct (excess_bits p k eq_refl Hk) as (Hhalf & H2k & Hlow & Hq & Hdiv & Hmod).
  set (q := p / 2 ^ k) in *. set (r := p mod 2 ^ k) in *.
  destruct ((2 ^ (k - 1) <? r) || (r =? 2 ^ (k - 1)) && Z.odd q) eqn:Hup.
  - assert (Hr : 2 ^ (k - 1) <= r).
    { apply orb_prop in Hup as [H|H].
      - apply Z.ltb_lt in H. lia.
      - apply andb_prop in H as [H _]. apply Z.eqb_eq in H. lia. }
    nia.
  - nia.
Qed.

Lemma round53_nonneg p : 0 <= p -> 0 <= round53 p.
Proof. intros Hp. apply (round53_lower p 0 0); lia. Qed.

(** The index is the integer part of the rounded product. *)
Lemma random_index_floor u n :
  Z.of_nat (random_index u n) = round53 (mantissa u * Z.of_nat n) / 2 ^ exponent u.
Proof.
  destruct (draw_bounds u) as [Hm He]. unfold random_index.
  apply Z2Nat.id. apply Z.div_pos; [|apply Z.pow_pos_nonneg; lia].
  apply round53_nonneg. nia.
Qed.

Lemma exponent_pow u : 2 ^ 53 <= 2 ^ exponent u.
Proof. destruct (draw_bounds u) as [_ He]. apply Z.pow_le_mono_r; lia. Qed.

(** The index is within the array. *)
Lemma random_index_in_range u n : (0 < n)%nat -> (random_index u n < n)%nat.
Proof.
  intros Hn. apply Nat2Z.inj_lt. rewrite random_index_floor.
  destruct (draw_bounds u) as [Hm He]. pose proof (exponent_pow u) as Hpow.
  apply Z.div_lt_upper_bound; [lia|].
  pose proof (round53_upper (mantissa u * Z.of_nat n)) as Hup.
  assert (Hmn : 0 <= mantissa u * Z.of_nat n) by nia.
  specialize (Hup Hmn).
  assert (Hlt : (2 ^ 53 + 1) * mantissa u < 2 ^ 53 * 2 ^ exponent u).
  { assert ((2 ^ 53 + 1) * mantissa u <= (2 ^ 53 + 1) * (2 ^ 53 - 1)) by nia.
    assert (2 ^ 53 * 2 ^ 53 <= 2 ^ 53 * 2 ^ exponent u) by nia. lia. }
  assert (0 < Z.of_nat n) by lia. nia.
Qed.

(** The index follows the draw: it is the integer part of the exact
    product [u * n], or the next integer when the exact product is within
    one part in 2^53 of it. *)
Lemma random_index_near_floor u n :
  Z.of_nat n <= 2 ^ 53 ->
  let i := Z.of_nat (random_index u n) in
  let p := mantissa u * Z.of_nat n in
  2 ^ 53 * (i * 2 ^ exponent u) <= (2 ^ 53 + 1) * p /\ p < (i + 1) * 2 ^ exponent u.
Proof.
  intros Hn i p. destruct (draw_bounds u) as [Hm He].
  assert (Hp : 0 <= p) by (unfold p; nia).
  assert (Hpow : 0 < 2 ^ exponent u) by (apply Z.pow_pos_nonneg; lia).
  assert (Hi : i = round53 p / 2 ^ exponent u) by apply random_index_floor.
  assert (Hfloor : i * 2 ^ exponent u <= round53 p).
  { rewrite Hi, Z.mul_comm. apply Z.mul_div_le. exact Hpow. }
  split.
  - pose proof (round53_upper p Hp). nia.
  - destruct (Z.lt_ge_cases p ((i + 1) * 2 ^ exponent u)) as [Hlt|Hge]; [exact Hlt|].
    exfalso.
    assert (Hin : (0 < n)%nat -> (random_index u n < n)%nat) by apply random_index_in_range.
    assert (Hi1 : 0 <= i + 1 <= 2 ^ 53).
    { destruct n as [|n']; [|specialize (Hin ltac:(lia)); lia].
      unfold p in Hge. rewrite Z.mul_0_r in Hge. unfold i in *. nia. }
    pose proof (round53_lower p (i + 1) (exponent u) ltac:(lia) Hi1 Hge) as Hlow.
    assert (i + 1 <= round53 p / 2 ^ exponent u).
    { apply Z.div_le_lower_bound; [exact Hpow|]. lia. }
    lia.
Qed.

(** Conversely, a draw whose exact product with [n] lies from [i] up to
    [i + 1], one part in 2^53 left out, selects the index [i]. *)
Lemma random_index_of_product u n (i : nat) :
  Z.of_nat i <= 2 ^ 53 ->
  let p := mantissa u * Z.of_nat n in
  Z.of_nat i * 2 ^ exponent u <= p ->
  (2 ^ 53 + 1) * p < 2 ^ 53 * ((Z.of_nat i + 1) * 2 ^ exponent u) ->
  random_index u n = i.
Proof.
  intros Hi p Hlow Hhigh. destruct (draw_bounds u) as [Hm He].
  assert (Hp : 0 <= p) by (unfold p; nia).
  assert (Hpow : 0 < 2 ^ exponent u) by (apply Z.pow_pos_nonneg; lia).
  apply Nat2Z.inj. rewrite random_index_floor. fold p.
  pose proof (round53_lower p (Z.of_nat i) (exponent u) ltac:(lia) ltac:(lia) Hlow) as Hl.
  pose proof (round53_upper p Hp) as Hu.
  apply Z.le_antisymm.
  - assert (round53 p / 2 ^ exponent u < Z.of_nat i + 1); [|lia].
    apply Z.div_lt_upper_bound; [exact Hpow|]. nia.
  - apply Z.div_le_lower_bound; [exact Hpow|]. lia.
Qed.

(** Every index of an array can be drawn. *)
Lemma random_index_onto n (i : nat) :
  (i < n)%nat -> Z.of_nat n < 2 ^ 32 -> exists u, random_index u n = i.
Proof.
  intros Hi Hn.
  set (m := (Z.of_nat i * 2 ^ 53 + Z.of_nat n - 1) / Z.of_nat n).
  assert (Hnpos : 0 < Z.of_nat n) by lia.
  assert (Hceil : Z.of_nat i * 2 ^ 53 <= m * Z.of_nat n <= Z.of_nat i * 2 ^ 53 + Z.of_nat n - 1).
  { unfold m.
    pose proof (Z.mul_div_le (Z.of_nat i * 2 ^ 53 + Z.of_nat n - 1) (Z.of_nat n) Hnpos).
    pose proof (Z.mul_succ_div_gt (Z.of_nat i * 2 ^ 53 + Z.of_nat n - 1) (Z.of_nat n) Hnpos).
    lia. }
  assert (Hm : 0 <= m < 2 ^ 53).
  { split.
    - unfold m. apply Z.div_pos; lia.
    - unfold m. apply Z.div_lt_upper_bound; [exact Hnpos|]. nia. }
  destruct (draw_of m 53 Hm ltac:(lia)) as (u & Hu & He).
  exists u. apply random_index_of_product; rewrite ?Hu, ?He; lia.
Qed.

(** *** The rounding against binary64 arithmetic itself *)

(** An integer below 2^53 as a binary64 number, the binary64 number a draw
    stands for, and whether [k] is the integer part of [x]. *)
Definition number (z : Z) : float := PrimFloat.of_uint63 (Uint63.of_Z z).

Definition binary64 (u : Draw) : float := Z.ldexp (number (mantissa u)) (- exponent u).

Definition floor_is (x : float) (k : Z) : bool :=
  (PrimFloat.leb (number k) x && PrimFloat.ltb x (number (k + 1)))%bool.

(** [random_index u n] is the integer part of the binary64 product. *)
Definition agrees (u : Draw) (n : nat) : bool :=
  floor_is (PrimFloat.mul (binary64 u) (number (Z.of_nat n)))
           (Z.of_nat (random_index u n)).

(** The largest draw below 7/10: ten times it is half-way between two
    binary64 numbers, and rounds to 7. *)
Definition nearly_seven_tenths : Draw :=
  {| mantissa := 6305039478318694; exponent := 53; is_binary64 := eq_refl |}.

(** The largest draw of all, and a subnormal one. *)
Definition nearly_one : Draw :=
  {| mantissa := 2 ^ 53 - 1; exponent := 53; is_binary64 := eq_refl |}.
Definition tiny : Draw :=
  {| mantissa := 5; exponent := 1074; is_binary64 := eq_refl |}.

(** The product is rounded before its integer part is taken: the index is
    2 where the exact product is below 2, and 7 where it is below 7. *)
Example random_index_rounds :
  Z.of_nat (random_index RotationSamples.nearly_two_thirds 3) = 2 /\
  mantissa RotationSamples.nearly_two_thirds * 3 < 2 * 2 ^ 53 /\
  Z.of_nat (random_index nearly_seven_tenths 10) = 7 /\
  mantissa nearly_seven_tenths * 10 < 7 * 2 ^ 53.
Proof. repeat split. Qed.

(** So does the arithmetic of binary64 numbers, here and at other draws. *)
Example random_index_agrees_with_binary64 :
  forallb (fun un => agrees (fst un) (snd un))
    [(RotationSamples.nearly_two_thirds, 3%nat); (nearly_seven_tenths, 10%nat);
     (RotationSamples.zero, 4%nat); (RotationSamples.half, 2%nat);
     (RotationSamples.half, 3%nat); (nearly_one, 3%nat); (nearly_one, 1000%nat);
     (nearly_one, 5000%nat); (tiny, 7%nat)] = true.
Proof. vm_compute. reflexivity. Qed.

End RandomIndexFacts.

(** ** The hook *)
Module WallpaperRotationFacts.
Import WallpaperRotation RandomIndexFacts.

(** *** Random images *)

Lemma length_pos {A} (l : list A) : l <> [] -> 0 < length l.
Proof. destruct l; simpl; [congruence|lia]. Qed.

Lemma length_nonzero {A} (l : list A) : l <> [] -> (length l =? 0) = false.
Proof. intros H. apply Nat.eqb_neq. apply length_pos in H. lia. Qed.

Lemma random_image (images : list WallpaperImage) u :
  images <> [] ->
  exists img, images !! random_index u (length images) = Some img /\ In img images.
Proof.
  intros H.
  destruct (lookup_lt_is_Some_2 images (random_index u (length images))) as [img E].
  { now apply random_index_in_range, length_pos. }
  exists img. split; [exact E|].
  apply list_elem_of_In. eapply list_elem_of_lookup_2. exact E.
Qed.

Lemma random_index_one u : random_index u 1 = 0.
Proof. pose proof (random_index_in_range u 1). lia. Qed.

(** *** Reaching a state *)

Lemma reachable_mount categories : reachable (mount categories).
Proof. exists categories. apply rtc_refl. Qed.

Lemma reachable_step h h' : reachable h -> step h h' -> reachable h'.
Proof. intros [categories H] Hs. exists categories. eapply rtc_r; eassumption. Qed.

(** Shows a state reachable by walking back its last steps to the mount. *)
Ltac walk :=
  repeat first
    [ apply reachable_mount
    | eapply reachable_step;
      [| first [ apply step_render | apply step_categories
               | apply step_resolved; simpl; lia
               | apply step_preloaded; simpl; lia
               | apply step_tick; reflexivity ] ] ].

(** A timely step is a step. *)
Lemma timely_step_is_step h h' : timely_step h h' -> step h h'.
Proof. intros H. destruct H; constructor; assumption. Qed.

(** *** The interval *)

(** An interval runs over at least two images: the array its [nextImage]
    closes over has more than one element. *)
Lemma interval_effect_long enabled s images :
  interval_effect enabled s = Some images -> 1 < length images.
Proof.
  unfold interval_effect, timer_runs. destruct enabled; simpl; [|discriminate].
  destruct (1 <? length (availableImages s)) eqn:E; [|discriminate].
  intros H. injection H as <-. now apply Nat.ltb_lt.
Qed.

Lemma step_interval_long h h' :
  step h h' ->
  (forall images, interval h = Some images -> 1 < length images) ->
  forall images, interval h' = Some images -> 1 < length images.
Proof.
  intros Hs IH images. destruct Hs; simpl; try apply IH; apply interval_effect_long.
Qed.

Lemma interval_long h images :
  reachable h -> interval h = Some images -> 1 < length images.
Proof.
  intros [categories Hr]. revert images. revert h Hr.
  apply (rtc_ind_r (fun h => forall images, interval h = Some images -> 1 < length images)).
  - discriminate.
  - intros h h' _ Hs IH. now apply (step_interval_long h h').
Qed.

(** *** The state stays consistent while the ticks are timely *)

Definition consistent (s : RotationState) : Prop :=
  currentImage s = availableImages s !! currentIndex s /\
  (availableImages s <> [] -> currentIndex s < length (availableImages s)).

Lemma consistent_initial : consistent initial.
Proof. split; [reflexivity|]. simpl. congruence. Qed.

Lemma consistent_begin categories s : consistent s -> consistent (loadImages_begin categories s).
Proof.
  intros [Hc Hi]. unfold loadImages_begin, consistent.
  destruct (length categories =? 0); simpl; [|split; assumption].
  split; [reflexivity|congruence].
Qed.

Lemma consistent_resolved r rnd s : consistent (fst (loadImages_resolved r rnd s)).
Proof.
  unfold consistent. destruct r as [images errors|err]; simpl.
  - destruct (length images =? 0) eqn:E; simpl.
    + split; [reflexivity|congruence].
    + split; [reflexivity|]. intros _. apply random_index_in_range.
      apply Nat.eqb_neq in E. lia.
  - split; [reflexivity|congruence].
Qed.

Lemma consistent_tick rnd s : consistent s -> consistent (fst (nextImage (availableImages s) rnd s)).
Proof.
  intros [Hc Hi]. unfold nextImage, consistent.
  destruct (length (availableImages s) =? 0) eqn:E; simpl; [split; assumption|].
  split; [reflexivity|]. intros _. apply random_index_in_range.
  apply Nat.eqb_neq in E. lia.
Qed.

Lemma timely_step_consistent h h' :
  timely_step h h' -> consistent (cells h) -> consistent (cells h').
Proof.
  intros Hs Hc. destruct Hs; simpl.
  - exact Hc.
  - now apply consistent_begin.
  - apply consistent_resolved.
  - exact Hc.
  - now apply consistent_tick.
Qed.

Lemma timely_consistent categories h :
  rtc timely_step (mount categories) h -> consistent (cells h).
Proof.
  revert h. apply (rtc_ind_r (fun h => consistent (cells h))).
  - apply consistent_begin, consistent_initial.
  - intros h h' _ Hs IH. now apply (timely_step_consistent h h').
Qed.

Lemma consistent_current s :
  consistent s -> availableImages s <> [] ->
  exists img, currentImage s = Some img /\ In img (availableImages s).
Proof.
  intros [Hc Hi] Hne.
  destruct (lookup_lt_is_Some_2 (availableImages s) (currentIndex s) (Hi Hne)) as [img E].
  exists img. split; [congruence|].
  apply list_elem_of_In. eapply list_elem_of_lookup_2. exact E.
Qed.

(** *** A run of [loadImages] by itself *)

(** With no category the run ends in the empty state. *)
Lemma loadImages_nothing_selected r rnd s :
  loadImages [] r rnd s =
    {| availableImages := []; currentImage := None; currentIndex := 0;
       isLoading := false; error := None |}.
Proof. reflexivity. Qed.

(** A run that finds images ends ready, with one of them current. *)
Lemma loadImages_found categories images errors rnd s :
  categories <> [] -> images <> [] ->
  exists img,
    In img images /\
    loadImages categories (Resolved images errors) rnd s =
      {| availableImages := images; currentImage := Some img;
         currentIndex := random_index (rnd 0) (length images);
         isLoading := false; error := None |}.
Proof.
  intros Hc Hi. destruct (random_image images (rnd 0) Hi) as (img & E & Hin).
  exists img. split; [exact Hin|].
  unfold loadImages, loadImages_begin. rewrite (length_nonzero _ Hc). simpl.
  rewrite (length_nonzero _ Hi). simpl. now rewrite E.
Qed.


Import RotationSamples.

(** *** Overlapping loads and late ticks *)

(** The hook over ["nature"], its two images found, drawn with zeros and
    rendered: the first image is current and the interval runs. *)
Definition showing_nature : Hook :=
  commit true (finish (settle (Resolved [dawn; dusk] []) zeros (mount ["nature"]))).

Lemma showing_nature_reachable : reachable showing_nature.
Proof. unfold showing_nature. walk. Qed.

Example showing_nature_state :
  cells showing_nature = two_images /\ interval showing_nature = Some [dawn; dusk].
Proof. split; reflexivity. Qed.




(** *** Timer ticks *)

(** The list a tick hands to [preloadImages] for one draw: nothing when
    the draw falls on the index just chosen. *)
Definition drawn_for_preload (images : list WallpaperImage) (chosen j : nat)
    : PreloadRequest :=
  if j =? chosen then [] else [images !! j].

(** C3, as amended. The interval of a reachable hook runs over more than
    one image, the [availableImages] of the render that started it. When
    it fires, the hook draws an index over that array and makes the image
    at that index the current one, whatever the previous index was; the
    other cells are left as they are. The index follows the draw [u]
    uniformly: it is the integer part of [u * n], or the next integer
    when [u * n] is within one part in 2^53 below it, so that every index
    has the draws of an interval of length 1/n, one part in 2^53 apart;
    and every index is drawn by some draw. The tick starts, without
    awaiting it, a preload of at most two images: the images at two
    further draws, each left out when it falls on the index just chosen.
    When no state update came since the render, the array is the current
    [availableImages] and the new current image is one of them. *)
Theorem C3_tick_picks_random_image h images rnd :
  reachable h ->
  interval h = Some images ->
  (Z.of_nat (length images) < 2 ^ 32)%Z ->
  let n := length images in
  let u0 := rnd 0 in
  let i := random_index u0 n in
  let pre := drawn_for_preload images i (random_index (rnd 1) n)
             ++ drawn_for_preload images i (random_index (rnd 2) n) in
  1 < n /\
  step h (tick images rnd h) /\
  exists img,
    images !! i = Some img /\ i < n /\
    nextImage images rnd (cells h) =
      ({| availableImages := availableImages (cells h); currentImage := Some img;
          currentIndex := i; isLoading := isLoading (cells h); error := error (cells h) |},
       Some pre) /\
    length pre <= 2 /\
    (forall p, In p pre ->
       exists j img', j < n /\ j <> i /\ images !! j = Some img' /\ p = Some img') /\
    (2 ^ 53 * (Z.of_nat i * 2 ^ exponent u0)
       <= (2 ^ 53 + 1) * (mantissa u0 * Z.of_nat n) /\
     mantissa u0 * Z.of_nat n < (Z.of_nat i + 1) * 2 ^ exponent u0)%Z /\
    (forall u k,
       (Z.of_nat k * 2 ^ exponent u <= mantissa u * Z.of_nat n)%Z ->
       ((2 ^ 53 + 1) * (mantissa u * Z.of_nat n)
          < 2 ^ 53 * ((Z.of_nat k + 1) * 2 ^ exponent u))%Z ->
       random_index u n = k) /\
    (forall k, k < n ->
       exists rnd', currentIndex (fst (nextImage images rnd' (cells h))) = k) /\
    (images = availableImages (cells h) -> In img (availableImages (cells h))).
Proof.
  intros Hr Hint Hsize n u0 i pre.
  assert (Hlong : 1 < n) by exact (interval_long h images Hr Hint).
  assert (Hn : 0 < n) by lia.
  split; [exact Hlong|]. split; [now apply step_tick|].
  assert (Hi : i < n) by (apply random_index_in_range, Hn).
  destruct (lookup_lt_is_Some_2 images i Hi) as [img E].
  assert (Hz : (length images =? 0) = false) by (apply Nat.eqb_neq; fold n; lia).
  exists img. split; [exact E|]. split; [exact Hi|].
  split.
  { unfold nextImage. rewrite Hz. fold n. fold u0. fold i. rewrite E. simpl.
    rewrite app_nil_r. reflexivity. }
  assert (Hpick : forall j p, j < n -> In p (drawn_for_preload images i j) ->
            exists j img', j < n /\ j <> i /\ images !! j = Some img' /\ p = Some img').
  { intros j p Hj Hp. unfold drawn_for_preload in Hp.
    destruct (j =? i) eqn:Ej; [destruct Hp|].
    destruct Hp as [<-|[]]. apply Nat.eqb_neq in Ej.
    destruct (lookup_lt_is_Some_2 images j Hj) as [img' E'].
    exists j, img'. auto. }
  split.
  { unfold pre, drawn_for_preload. rewrite length_app.
    destruct (_ =? i), (_ =? i); simpl; lia. }
  split.
  { intros p Hp. apply in_app_or in Hp as [Hp|Hp];
      (eapply Hpick; [|exact Hp]); apply random_index_in_range, Hn. }
  split.
  { apply (random_index_near_floor u0 n). fold n in Hsize. lia. }
  split.
  { intros u k Hlow Hhigh. apply random_index_of_product; [|exact Hlow|exact Hhigh].
    destruct (draw_bounds u) as [Hm He]. pose proof (exponent_pow u) as Hpow.
    fold n in Hsize. nia. }
  split.
  { intros k Hk. destruct (random_index_onto n k Hk Hsize) as [u Hu].
    exists (fun _ => u). unfold nextImage. rewrite Hz. simpl. exact Hu. }
  intros <-. apply list_elem_of_In. eapply list_elem_of_lookup_2. exact E.
Qed.

(** C3 as amended, at a tick over two images: the second one becomes
    current, and the two preload draws, which fall on it, are left out. *)
Lemma C3_tick_picks_random_image_witness :
  reachable showing_nature /\
  interval showing_nature = Some [dawn; dusk] /\
  nextImage [dawn; dusk] halves (cells showing_nature) =
    ({| availableImages := [dawn; dusk]; currentImage := Some dusk; currentIndex := 1;
        isLoading := false; error := None |}, Some []) /\
  nextImage [dawn; dusk] zero_then_halves (cells showing_nature) =
    (two_images, Some [Some dusk; Some dusk]) /\
  exists rnd', currentIndex (fst (nextImage [dawn; dusk] rnd' (cells showing_nature))) = 0.
Proof.
  split; [exact showing_nature_reachable|]. split; [reflexivity|].
  split; [reflexivity|]. split; [reflexivity|].
  destruct (C3_tick_picks_random_image showing_nature [dawn; dusk] halves
              showing_nature_reachable eq_refl eq_refl)
    as (_ & _ & img & _ & _ & _ & _ & _ & _ & _ & Honto & _).
  apply Honto. simpl. lia.
Defined.

(** C3 as stated fails: on a tick with two images available, when the two
    preload draws fall on the index just chosen, nothing is preloaded. *)
Lemma C3_preload_may_be_empty :
  reachable showing_nature /\
  interval showing_nature = Some [dawn; dusk] /\
  nextImage [dawn; dusk] zeros (cells showing_nature) = (two_images, Some []) /\
  ~ (exists pre, snd (nextImage [dawn; dusk] zeros (cells showing_nature)) = Some pre /\
                 length pre = 2).
Proof.
  split; [exact showing_nature_reachable|]. split; [reflexivity|]. split; [reflexivity|].
  intros (pre & E & Hlen).
  change (snd (nextImage [dawn; dusk] zeros (cells showing_nature)))
    with (Some (@nil (option WallpaperImage))) in E.
  injection E as <-. discriminate Hlen.
Qed.

End WallpaperRotationFacts.

(** * More on the service worker: the other strategies, seeding, clearing,
      the status report and installation *)
Module CacheWorkerFacts.
Import ServiceWorker ServiceWorkerFacts.

(** *** Finding a key after a store was written *)

Lemma match_all_app key cs cs' :
  match_all key (cs ++ cs') =
  match match_all key cs with
  | Some r => Some r
  | None => match_all key cs'
  end.
Proof.
  induction cs as [|[n c] cs IH]; simpl; [reflexivity|].
  destruct (c !! key); [reflexivity|exact IH].
Qed.

Lemma match_all_opened key name cs :
  match_all key (opened name cs) = match_all key cs.
Proof.
  unfold opened. destruct (lookup_store name cs); [reflexivity|].
  rewrite match_all_app. simpl. rewrite lookup_empty. now destruct (match_all key cs).
Qed.

(** A key no store holds is found with the response just put. *)
Lemma match_all_put key r name cs :
  match_all key cs = None ->
  is_Some (lookup_store name cs) ->
  match_all key (update_store name (fun c => <[key := r]> c) cs) = Some r.
Proof.
  induction cs as [|[n c] cs IH]; simpl; intros Hm [c' Hc]; [discriminate|].
  destruct (c !! key) eqn:E; [discriminate|].
  destruct (String.eqb n name); simpl.
  - now rewrite lookup_insert_eq.
  - rewrite E. apply IH; eauto.
Qed.

Lemma put_after_open key r name cs :
  match_all key cs = None ->
  match_all key (update_store name (fun c => <[key := r]> c) (opened name cs)) = Some r.
Proof.
  intros Hm. apply match_all_put.
  - now rewrite match_all_opened.
  - rewrite lookup_store_opened. eauto.
Qed.

(** A key no store holds is found afterwards exactly when the Cache API
    accepted the response. *)
Lemma match_all_stored key r name cs :
  match_all key cs = None ->
  match_all key (stored name key r cs) = if put_accepts key r then Some r else None.
Proof.
  intros Hm. unfold stored. destruct (put_accepts key r).
  - now apply put_after_open.
  - now rewrite match_all_opened.
Qed.

Section Strategies.

Variable tag : string.
Variable locate : Locator.
Variable net : Network.

(** *** Network first *)

(** X1. Whatever the network answers is what the client gets, a cached copy or
    not, an error status or not, after one fetch. The answer is filed in
    the runtime store when it is ok and the Cache API accepts it; an
    answer that is not ok changes no store, and one that the Cache API
    refuses is returned all the same and leaves the entries of the runtime
    store as they were. No other store changes. *)
Theorem networkFirst_returns_network_answer request w r :
  net (url request) = Some r ->
  exists w',
    handleNetworkFirstRequest tag net request w = (Return r, w') /\
    requests w' = requests w ++ [url request] /\
    (ok r = true ->
       lookup_store (CACHE_NAME tag) (caches w') =
         Some (if put_accepts (url request) r
               then <[url request := r]> (default ∅ (lookup_store (CACHE_NAME tag) (caches w)))
               else default ∅ (lookup_store (CACHE_NAME tag) (caches w)))) /\
    (ok r = true -> put_accepts (url request) r = true ->
       exists store, lookup_store (CACHE_NAME tag) (caches w') = Some store /\
                     store !! url request = Some r) /\
    (ok r = false -> caches w' = caches w) /\
    (forall name, name <> CACHE_NAME tag ->
       lookup_store name (caches w') = lookup_store name (caches w)).
Proof.
  intros Hn. eexists. split; [now apply networkFirst_answered|]. simpl.
  split; [reflexivity|]. split; [|split; [|split]].
  - intros Hok. rewrite Hok. apply lookup_stored.
  - intros Hok Ha. rewrite Hok, lookup_stored, Ha.
    eexists. split; [reflexivity|]. apply lookup_insert_eq.
  - intros Hok. now rewrite Hok.
  - intros name Hne. destruct (ok r); [|reflexivity].
    now apply lookup_stored_other.
Qed.

(** X2. With the network down, the first cached copy in any store is served;
    without one the network error is passed on. One fetch is tried and no
    store changes. *)
Theorem networkFirst_falls_back_to_cache request w :
  net (url request) = None ->
  exists w',
    handleNetworkFirstRequest tag net request w =
      (match match_all (url request) (caches w) with
       | Some cached => Return cached
       | None => Throw "TypeError: Failed to fetch"
       end, w') /\
    caches w' = caches w /\
    requests w' = requests w ++ [url request].
Proof.
  intros Hn. eexists. split; [now apply networkFirst_down|]. split; reflexivity.
Qed.

(** *** Static assets on a miss *)

(** X3. On a miss the network's answer is returned whatever its status, after
    one fetch. It is the cached copy afterwards when it is ok and the
    Cache API accepts it; when the Cache API refuses it the request is
    still a miss afterwards, and an answer that is not ok changes no
    store. *)
Theorem static_miss_returns_network_answer request w r :
  match_all (url request) (caches w) = None ->
  net (url request) = Some r ->
  exists w',
    handleStaticAssetRequest tag locate net request w = (Return r, w') /\
    requests w' = requests w ++ [url request] /\
    (ok r = true ->
       match_all (url request) (caches w') =
         if put_accepts (url request) r then Some r else None) /\
    (ok r = false -> caches w' = caches w).
Proof.
  intros Hm Hn. eexists. split; [now apply static_miss_answered|].
  simpl. split; [reflexivity|]. split; intros Hok; rewrite Hok; [|reflexivity].
  now apply match_all_stored.
Qed.

End Strategies.

(** *** Offline after one visit *)

(** X4. Whatever branch the fetch listener takes for a GET request, once an
    uncached URL has been fetched with an ok answer that the Cache API
    accepts, the same request is answered with that response when the
    network is down. *)
Theorem visited_once_served_offline tag locate net request w r handler :
  onFetch tag locate net request = Some handler ->
  match_all (url request) (caches w) = None ->
  net (url request) = Some r ->
  ok r = true ->
  put_accepts (url request) r = true ->
  forall down : Network, down (url request) = None ->
  exists again,
    onFetch tag locate down request = Some again /\
    fst (handler w) = Return r /\
    fst (again (snd (handler w))) = Return r.
Proof.
  intros Hh Hm Hn Hok Ha down Hd. unfold onFetch in *.
  assert (Hfound : forall name,
            match_all (url request) (stored name (url request) r (caches w)) = Some r).
  { intros name. now rewrite match_all_stored, Ha. }
  destruct (route request) eqn:Hr; [discriminate| | |]; injection Hh as <-;
    eexists; (split; [reflexivity|]).
  - rewrite (wallpaper_miss_answered tag net request w r Hm Hn Hok).
    split; [reflexivity|]. cbn [snd].
    erewrite wallpaper_hit; [reflexivity|]. apply Hfound.
  - rewrite (static_miss_answered tag locate net request w r Hm Hn), Hok.
    split; [reflexivity|]. cbn [snd].
    erewrite static_hit; [reflexivity|]. apply Hfound.
  - rewrite (networkFirst_answered tag net request w r Hn), Hok.
    split; [reflexivity|]. cbn [snd].
    rewrite networkFirst_down by exact Hd. simpl.
    now rewrite Hfound.
Qed.

(** *** Clearing *)

Lemma clear_loop names w :
  for_of names caches_delete w =
  (Return tt,
   {| caches := List.filter (fun nc => negb (existsb (String.eqb (fst nc)) names)) (caches w);
      requests := requests w |}).
Proof.
  revert w. induction names as [|n names IH]; intros w.
  - simpl. unfold mret, Async_ret. rewrite filter_all. now destruct w.
  - cbn [for_of]. unfold mbind, Async_bind at 1, caches_delete at 1.
    rewrite IH. simpl. rewrite filter_twice. do 2 f_equal.
    apply List.filter_ext. intros [m c]. simpl. rewrite negb_orb. apply andb_comm.
Qed.

Lemma filter_nothing {A} (f : A -> bool) (l : list A) :
  (forall x, In x l -> f x = false) -> List.filter f l = [].
Proof.
  induction l as [|x l IH]; intros H; simpl; [reflexivity|].
  rewrite (H x) by now left. apply IH. intros y Hy. apply H. now right.
Qed.

Lemma filter_everything {A} (f : A -> bool) (l : list A) :
  (forall x, In x l -> f x = true) -> List.filter f l = l.
Proof.
  induction l as [|x l IH]; intros H; simpl; [reflexivity|].
  rewrite (H x) by now left. f_equal. apply IH. intros y Hy. apply H. now right.
Qed.

Lemma clearAllCaches_run w :
  clearAllCaches w = (Return tt, {| caches := []; requests := requests w |}).
Proof.
  unfold clearAllCaches, try_catch, mbind, Async_bind, caches_keys.
  rewrite clear_loop. simpl. do 2 f_equal.
  apply filter_nothing. intros [n c] Hin. simpl.
  apply negb_false_iff, existsb_exists. exists n. split.
  - apply in_map_iff. now exists (n, c).
  - apply String.eqb_refl.
Qed.

(** *** The status report *)

(** X6. The report is read-only: it creates no store and fetches nothing. Its
    keys are the names of the existing stores, each with the number of
    entries of that store, except that a store named ["__proto__"] gets
    no key: the report is a plain object. *)
Theorem status_report_counts_every_store w :
  exists st,
    getCacheStatus w = (Return st, w) /\
    (forall name, In name (map fst (caches w)) -> name <> "__proto__" ->
       st !! name = Some (entry_count name (caches w))) /\
    (forall name, ~ In name (map fst (caches w)) -> st !! name = None) /\
    st !! "__proto__" = None.
Proof.
  eexists. split; [apply getCacheStatus_run|]. split; [|split].
  - intros name Hin Hp. now apply (status_lookup (fun n => entry_count n (caches w))).
  - intros name Hn.
    rewrite (status_lookup_other (fun n => entry_count n (caches w))); [reflexivity|now left].
  - rewrite (status_lookup_other (fun n => entry_count n (caches w))); [reflexivity|now right].
Qed.

(** X5. CLEAR_CACHE deletes every store, whatever its name or version, without
    fetching anything; the next status report is empty and every request
    misses the cache. *)
Theorem clear_cache_leaves_nothing tag locate net w :
  let w' := snd (onMessage tag locate net CLEAR_CACHE w) in
  fst (onMessage tag locate net CLEAR_CACHE w) = Return None /\
  caches w' = [] /\
  requests w' = requests w /\
  fst (onMessage tag locate net GET_CACHE_STATUS w') = Return (Some ∅) /\
  (forall key, match_all key (caches w') = None).
Proof.
  unfold onMessage, mbind, Async_bind. rewrite clearAllCaches_run. simpl.
  repeat (split; [reflexivity|]). reflexivity.
Qed.

(** *** Seeding, continued *)

Lemma seeded_dom locate net images (c : gmap string Response) :
  dom (fold_left (put_if_ok locate net) images c) =
  dom c ∪ list_to_set (List.filter (seeds net) (omap locate images)).
Proof.
  revert c. induction images as [|x images IH]; intros c; simpl.
  - now rewrite (right_id_L ∅ (∪)).
  - rewrite IH. unfold put_if_ok, seeds.
    destruct (locate x) as [key|]; [|reflexivity]. simpl.
    destruct (net key) as [r|]; [|reflexivity].
    destruct (ok r && put_accepts key r); simpl; [|reflexivity].
    rewrite dom_insert_L.
    rewrite (assoc_L (∪)), (comm_L (∪) (dom c)). reflexivity.
Qed.

Lemma match_all_holds key name cs (c : gmap string Response) :
  lookup_store name cs = Some c -> is_Some (c !! key) -> is_Some (match_all key cs).
Proof.
  induction cs as [|[n c'] cs IH]; simpl; [discriminate|].
  intros Hl Hk. destruct (c' !! key) eqn:E; [eauto|].
  destruct (String.eqb n name).
  - injection Hl as ->. rewrite E in Hk. destruct Hk. discriminate.
  - now apply IH.
Qed.

Lemma in_omap_locate (locate : Locator) images key :
  In key (omap locate images) <-> exists src, In src images /\ locate src = Some key.
Proof.
  rewrite <- list_elem_of_In, list_elem_of_omap.
  split; intros (src & H & E); exists src; (split; [|exact E]);
    now apply list_elem_of_In.
Qed.

(** X7. CACHE_WALLPAPERS fetches each image whose [src] parses, once and in
    the order given, and goes on after a failure; it never throws. An
    image that the network served with an ok response and that the Cache
    API accepts is then in the wallpaper store, under its URL, with that
    response; a URL for which this is not so, be it the URL of an image or
    not, keeps what the store held for it: an image served with a partial
    response is not stored. The other stores are as they were. *)
Theorem cacheWallpapers_seeds_the_store tag locate net images w :
  exists w',
    cacheWallpapers tag locate net images w = (Return tt, w') /\
    requests w' = requests w ++ omap locate images /\
    (exists store, lookup_store (WALLPAPER_CACHE_NAME tag) (caches w') = Some store /\
       (forall src key r, In src images -> locate src = Some key -> net key = Some r ->
          ok r = true -> put_accepts key r = true -> store !! key = Some r) /\
       (forall key,
          (forall src, In src images -> locate src = Some key -> seeds net key = false) ->
          store !! key =
            default ∅ (lookup_store (WALLPAPER_CACHE_NAME tag) (caches w)) !! key)) /\
    (forall name, name <> WALLPAPER_CACHE_NAME tag ->
       lookup_store name (caches w') = lookup_store name (caches w)).
Proof.
  eexists. split; [apply cacheWallpapers_run|]. simpl.
  split; [reflexivity|]. split.
  - eexists. rewrite lookup_update_store, lookup_store_opened. simpl.
    split; [reflexivity|]. split.
    + intros src key r. apply seeded_holds.
    + intros key. apply seeded_untouched.
  - intros name Hne. now rewrite lookup_update_other, lookup_opened_other.
Qed.

(** X8. A wallpaper that was seeded, served with an ok response without
    [Vary] header that the Cache API accepts, is served from the cache
    afterwards, whatever the network does: the handler answers a GET for
    its URL with a cached response, without fetching and without changing
    anything. *)
Theorem seeded_wallpaper_served_offline tag locate net images w request src r :
  In src images -> locate src = Some (url request) ->
  net (url request) = Some r -> ok r = true -> vary r = [] ->
  put_accepts (url request) r = true ->
  let w' := snd (cacheWallpapers tag locate net images w) in
  forall down : Network,
  exists cached,
    match_all (url request) (caches w') = Some cached /\
    handleWallpaperRequest tag down request w' = (Return cached, w').
Proof.
  intros Hin Hl Hn Hok _ Ha w' down.
  unfold w'. rewrite cacheWallpapers_run. cbn [snd].
  set (w1 := {| caches := _; requests := _ |}).
  destruct (match_all_holds (url request) (WALLPAPER_CACHE_NAME tag) (caches w1)
              (fold_left (put_if_ok locate net) images
                 (default ∅ (lookup_store (WALLPAPER_CACHE_NAME tag) (caches w)))))
    as [cached Hc].
  { unfold w1. simpl. now rewrite lookup_update_store, lookup_store_opened. }
  { rewrite (seeded_holds locate net images _ src (url request) r Hin Hl Hn Hok Ha). eauto. }
  exists cached. split; [exact Hc|]. now apply wallpaper_hit.
Qed.

Lemma entry_count_seeded tag locate net images w :
  entry_count (WALLPAPER_CACHE_NAME tag)
    (caches (snd (cacheWallpapers tag locate net images w))) =
  size (dom (default ∅ (lookup_store (WALLPAPER_CACHE_NAME tag) (caches w)))
        ∪ list_to_set (List.filter (seeds net) (omap locate images)) : gset string).
Proof.
  rewrite cacheWallpapers_run. unfold entry_count. simpl.
  rewrite lookup_update_store, lookup_store_opened. simpl.
  now rewrite <- seeded_dom, size_dom.
Qed.

(** X9. Seeding images whose URLs are distinct and not in the wallpaper store
    yet, each served with an ok response that the Cache API accepts,
    raises the entry count of the store by the number of URLs, which is
    the number of images when every [src] parses. (Two strings that
    denote one URL make one entry, and a partial response makes none.) *)
Theorem seeding_new_images_adds_their_number tag locate net images w :
  let keys := omap locate images in
  NoDup keys ->
  (forall key, In key keys -> seeds net key = true) ->
  (forall key store, In key keys ->
     lookup_store (WALLPAPER_CACHE_NAME tag) (caches w) = Some store -> store !! key = None) ->
  entry_count (WALLPAPER_CACHE_NAME tag)
    (caches (snd (cacheWallpapers tag locate net images w))) =
    entry_count (WALLPAPER_CACHE_NAME tag) (caches w) + length keys /\
  ((forall src, In src images -> is_Some (locate src)) -> length keys = length images).
Proof.
  intros keys Hnd Hserved Hnew. split.
  - rewrite entry_count_seeded. fold keys.
    rewrite (filter_everything (seeds net) keys) by exact Hserved.
    rewrite size_union.
    + rewrite size_dom, size_list_to_set by exact Hnd.
      unfold entry_count.
      now destruct (lookup_store (WALLPAPER_CACHE_NAME tag) (caches w)).
    + intros key Hd Hl. apply elem_of_list_to_set, list_elem_of_In in Hl.
      apply elem_of_dom in Hd as [r Hr].
      destruct (lookup_store (WALLPAPER_CACHE_NAME tag) (caches w)) as [store|] eqn:E;
        simpl in Hr.
      * rewrite (Hnew key store Hl eq_refl) in Hr. discriminate.
      * rewrite lookup_empty in Hr. discriminate.
  - intros Hparse. unfold keys. clear -Hparse.
    induction images as [|x images IH]; [reflexivity|]. simpl.
    destruct (Hparse x (or_introl eq_refl)) as [key ->]. simpl. f_equal.
    apply IH. intros src Hs. apply Hparse. now right.
Qed.

Lemma update_store_fixed_ext name f g cs :
  (forall c, f c = g c) -> update_store name f cs = update_store name g cs.
Proof.
  intros H. induction cs as [|[n c] cs IH]; simpl; [reflexivity|].
  destruct (String.eqb n name); [now rewrite H|now rewrite IH].
Qed.

(** *** Installation *)

Import ServiceWorkerInstall.

Lemma for_of_map {A B} (f : A -> B) (l : list A) (body : B -> Async unit) w :
  for_of (map f l) body w = for_of l (fun x => body (f x)) w.
Proof.
  revert w. induction l as [|x l IH]; intros w; [reflexivity|].
  cbn [map for_of]. unfold mbind, Async_bind.
  destruct (body (f x) w) as [[[]|e] w']; [apply IH|reflexivity].
Qed.

Lemma seeded_size locate net images (c : gmap string Response) :
  size (fold_left (put_if_ok locate net) images c) <= size c + length images.
Proof.
  revert c. induction images as [|x images IH]; intros c; simpl; [lia|].
  etransitivity; [apply IH|].
  assert (size (put_if_ok locate net c x) <= S (size c)); [|lia].
  unfold put_if_ok. destruct (locate x) as [key|]; [|lia].
  destruct (net key) as [r|]; [destruct (ok r && put_accepts key r)|]; try lia.
  rewrite map_size_insert. destruct (c !! key); simpl; lia.
Qed.

(** A key the loop wrote is the URL of one of the images. *)
Lemma seeded_new_key locate net images (c : gmap string Response) key :
  is_Some (fold_left (put_if_ok locate net) images c !! key) ->
  is_Some (c !! key) \/ exists src, In src images /\ locate src = Some key.
Proof.
  revert c. induction images as [|x images IH]; intros c H; [now left|].
  cbn [fold_left] in H. apply IH in H as [H|(src & Hin & Hl)].
  - unfold put_if_ok in H. destruct (locate x) as [kx|] eqn:Hx; [|now left].
    destruct (net kx) as [r|]; [|now left].
    destruct (ok r && put_accepts kx r); [|now left].
    destruct (decide (kx = key)) as [->|Hne].
    + right. exists x. split; [now left|exact Hx].
    + left. now rewrite lookup_insert_ne in H.
  - right. exists src. split; [now right|exact Hl].
Qed.

Section InstallFacts.

Variable tag : string.
Variable locate : Locator.
Variable net : Network.
Variable parse : string -> option (gmap string (list string)).

(** The names the manifest gives for one category, cut to the first
    five. *)
Definition priority_names (category : string) : list string :=
  match locate "/wallpapers/manifest.json" with
  | Some manifestUrl =>
      match net manifestUrl with
      | Some r =>
          if ok r then
            match parse (body r) with
            | Some manifest =>
                take MAX_WALLPAPERS_PER_CATEGORY (default [] (manifest !! category))
            | None => []
            end
          else []
      | None => []
      end
  | None => []
  end.

(** The wallpapers the loop tries for one category. *)
Definition priority_urls (category : string) : list string :=
  map (imageUrl category) (priority_names category).

(** The fetches of the manifest: one per category when its URL parses. *)
Definition manifest_fetch : list string :=
  match locate "/wallpapers/manifest.json" with
  | Some manifestUrl => [manifestUrl]
  | None => []
  end.

Lemma priority_urls_length category :
  length (priority_urls category) <= MAX_WALLPAPERS_PER_CATEGORY.
Proof.
  unfold priority_urls, priority_names. rewrite length_map.
  destruct (locate _) as [manifestUrl|]; [|simpl; lia].
  destruct (net _) as [r|]; [|simpl; lia].
  destruct (ok r); [|simpl; lia]. destruct (parse _); [|simpl; lia].
  rewrite length_take. lia.
Qed.

Lemma manifest_fetch_length : length manifest_fetch <= 1.
Proof. unfold manifest_fetch. destruct (locate _); simpl; lia. Qed.

Lemma omap_length {A B} (f : A -> option B) (l : list A) : length (omap f l) <= length l.
Proof.
  induction l as [|x l IH]; [reflexivity|]. simpl.
  destruct (f x); simpl; [apply le_n_S|apply le_S]; exact IH.
Qed.

Lemma priority_category cache category w :
  try_catch
    (manifestResponse ← fetch_url locate net "/wallpapers/manifest.json";
     if ok manifestResponse then
       manifest ← response_json parse manifestResponse;
       let categoryImages := default [] (manifest !! category) in
       let imagesToCache := take MAX_WALLPAPERS_PER_CATEGORY categoryImages in
       for_of imagesToCache (fun imageName =>
         try_catch
           (imageResponse ← fetch_url locate net (imageUrl category imageName);
            if ok imageResponse
            then cache_put_url locate cache (imageUrl category imageName) imageResponse
            else mret tt)
           (fun _ => mret tt))
     else mret tt)
    (fun _ => mret tt) w =
  (Return tt,
   {| caches := update_store cache
                  (fun c => fold_left (put_if_ok locate net) (priority_urls category) c)
                  (caches w);
      requests := requests w ++ manifest_fetch ++ omap locate (priority_urls category) |}).
Proof.
  unfold priority_urls, priority_names, manifest_fetch.
  unfold try_catch at 1, mbind at 1, Async_bind at 1, fetch_url at 1, new_Request at 1.
  unfold mbind at 1, Async_bind at 1.
  destruct (locate "/wallpapers/manifest.json") as [manifestUrl|]; simpl;
    [|rewrite update_store_id, app_nil_r; now destruct w].
  unfold fetch at 1.
  destruct (net manifestUrl) as [r|]; simpl;
    [|now rewrite update_store_id].
  destruct (ok r); [|unfold mret, Async_ret; now rewrite update_store_id].
  unfold mbind at 1, Async_bind at 1, response_json.
  destruct (parse (body r)) as [manifest|]; [|simpl; now rewrite update_store_id].
  cbv zeta.
  rewrite <- (for_of_map (imageUrl category) _
    (fun src => try_catch
       (imageResponse ← fetch_url locate net src;
        if ok imageResponse then cache_put_url locate cache src imageResponse else mret tt)
       (fun _ => mret tt))).
  rewrite seed_loop. simpl. now rewrite <- app_assoc.
Qed.

(** What the loop over the categories fetches. *)
Definition priority_fetches (categories : list string) : list string :=
  concat (map (fun category => manifest_fetch ++ omap locate (priority_urls category))
              categories).

Lemma priority_loop cache categories w :
  for_of categories (fun category =>
    try_catch
      (manifestResponse ← fetch_url locate net "/wallpapers/manifest.json";
       if ok manifestResponse then
         manifest ← response_json parse manifestResponse;
         let categoryImages := default [] (manifest !! category) in
         let imagesToCache := take MAX_WALLPAPERS_PER_CATEGORY categoryImages in
         for_of imagesToCache (fun imageName =>
           try_catch
             (imageResponse ← fetch_url locate net (imageUrl category imageName);
              if ok imageResponse
              then cache_put_url locate cache (imageUrl category imageName) imageResponse
              else mret tt)
             (fun _ => mret tt))
       else mret tt)
      (fun _ => mret tt)) w =
  (Return tt,
   {| caches := update_store cache
                  (fun c => fold_left (put_if_ok locate net)
                              (concat (map priority_urls categories)) c) (caches w);
      requests := requests w ++ priority_fetches categories |}).
Proof.
  unfold priority_fetches. revert w. induction categories as [|category categories IH]; intros w.
  - simpl. unfold mret, Async_ret. rewrite update_store_id, app_nil_r. now destruct w.
  - cbn [for_of]. unfold mbind at 1, Async_bind at 1. rewrite priority_category.
    rewrite IH. simpl. rewrite update_store_twice. do 2 f_equal.
    + apply update_store_fixed_ext. intros c. now rewrite fold_left_app.
    + now rewrite <- !app_assoc.
Qed.

Lemma cachePriorityWallpapers_run w :
  cachePriorityWallpapers tag locate net parse w =
  (Return tt,
   {| caches := update_store (WALLPAPER_CACHE_NAME tag)
                  (fun c => fold_left (put_if_ok locate net)
                              (concat (map priority_urls PRIORITY_WALLPAPER_CATEGORIES)) c)
                  (opened (WALLPAPER_CACHE_NAME tag) (caches w));
      requests := requests w ++ priority_fetches PRIORITY_WALLPAPER_CATEGORIES |}).
Proof.
  unfold cachePriorityWallpapers. unfold try_catch at 1, mbind at 1, Async_bind at 1.
  unfold caches_open, opened.
  destruct (lookup_store (WALLPAPER_CACHE_NAME tag) (caches w));
    cbv beta iota; now rewrite priority_loop.
Qed.

(** X10. Installation never fails on the priority wallpapers. It adds at most
    fifteen entries to the wallpaper store, each under the URL that the
    string /wallpapers/category/name denotes for a priority category and
    one of the first five names the manifest lists for it (a URL that need
    not lie under /wallpapers/ when the name has dot segments); it issues
    at most eighteen fetches and leaves the other stores as they were. *)
Theorem install_adds_at_most_fifteen_wallpapers w :
  exists w' store,
    cachePriorityWallpapers tag locate net parse w = (Return tt, w') /\
    lookup_store (WALLPAPER_CACHE_NAME tag) (caches w') = Some store /\
    size store <=
      size (default ∅ (lookup_store (WALLPAPER_CACHE_NAME tag) (caches w))) + 15 /\
    (forall key, is_Some (store !! key) ->
       is_Some (default ∅ (lookup_store (WALLPAPER_CACHE_NAME tag) (caches w)) !! key) \/
       exists category imageName,
         In category PRIORITY_WALLPAPER_CATEGORIES /\
         In imageName (priority_names category) /\
         length (priority_names category) <= 5 /\
         locate (imageUrl category imageName) = Some key) /\
    length (requests w') <= length (requests w) + 18 /\
    (forall name, name <> WALLPAPER_CACHE_NAME tag ->
       lookup_store name (caches w') = lookup_store name (caches w)).
Proof.
  eexists. eexists. split; [apply cachePriorityWallpapers_run|]. simpl.
  rewrite lookup_update_store, lookup_store_opened. simpl.
  split; [reflexivity|].
  assert (H5 := priority_urls_length). unfold MAX_WALLPAPERS_PER_CATEGORY in H5.
  split; [|split; [|split]].
  - etransitivity; [apply seeded_size|].
    rewrite !length_app. simpl.
    pose proof (H5 "nature"). pose proof (H5 "motivational"). pose proof (H5 "common_mass").
    lia.
  - intros key Hk. apply seeded_new_key in Hk as [Hk|(src & Hin & Hl)]; [now left|].
    right. rewrite app_nil_r in Hin.
    assert (Hcat : forall category, In src (priority_urls category) ->
              exists imageName, In imageName (priority_names category) /\
                                length (priority_names category) <= 5 /\
                                locate (imageUrl category imageName) = Some key).
    { intros category Hc. unfold priority_urls in Hc.
      apply in_map_iff in Hc as (imageName & <- & Hn). exists imageName.
      split; [exact Hn|]. split; [|exact Hl].
      specialize (H5 category). unfold priority_urls in H5. now rewrite length_map in H5. }
    apply in_app_or in Hin as [Hin|Hin]; [|apply in_app_or in Hin as [Hin|Hin]];
      destruct (Hcat _ Hin) as (imageName & Hn & Hlen & Hloc);
      eexists; exists imageName; (split; [|split; [exact Hn|split; [exact Hlen|exact Hloc]]]);
      simpl; auto.
  - unfold priority_fetches, PRIORITY_WALLPAPER_CATEGORIES. cbn [map concat].
    rewrite !length_app. cbn [length].
    pose proof manifest_fetch_length.
    pose proof (omap_length locate (priority_urls "nature")).
    pose proof (omap_length locate (priority_urls "motivational")).
    pose proof (omap_length locate (priority_urls "common_mass")).
    pose proof (H5 "nature"). pose proof (H5 "motivational"). pose proof (H5 "common_mass").
    lia.
  - intros name Hne. now rewrite lookup_update_other, lookup_opened_other.
Qed.

(** X11. When the manifest cannot be fetched, is answered with an error status
    or does not parse, installation asks for it once per priority category
    and caches no wallpaper: the wallpaper store is only created. *)
Theorem install_without_manifest_caches_nothing w :
  (forall manifestUrl, locate "/wallpapers/manifest.json" = Some manifestUrl ->
     net manifestUrl = None \/
     exists r, net manifestUrl = Some r /\ (ok r = false \/ parse (body r) = None)) ->
  cachePriorityWallpapers tag locate net parse w =
  (Return tt,
   {| caches := opened (WALLPAPER_CACHE_NAME tag) (caches w);
      requests := requests w ++
                  match locate "/wallpapers/manifest.json" with
                  | Some manifestUrl => [manifestUrl; manifestUrl; manifestUrl]
                  | None => []
                  end |}).
Proof.
  intros H. rewrite cachePriorityWallpapers_run.
  assert (E : forall category, priority_urls category = []).
  { intros category. unfold priority_urls, priority_names.
    destruct (locate "/wallpapers/manifest.json") as [manifestUrl|]; [|reflexivity].
    destruct (H manifestUrl eq_refl) as [->|(r & -> & [->| ->])];
      [reflexivity|reflexivity|]. now destruct (ok r). }
  unfold priority_fetches, manifest_fetch. simpl. rewrite !E. simpl.
  rewrite update_store_id. now destruct (locate "/wallpapers/manifest.json").
Qed.

(** *** The shell *)

(** The keys of the requests made from some strings, when all of them
    parse. *)
Fixpoint located (inputs : list string) : option (list string) :=
  match inputs with
  | [] => Some []
  | input :: rest =>
      match locate input, located rest with
      | Some key, Some keys => Some (key :: keys)
      | _, _ => None
      end
  end.

Lemma new_Requests_run inputs w :
  new_Requests locate inputs w =
  (match located inputs with
   | Some keys => Return keys
   | None => Throw "TypeError: Failed to parse URL"
   end, w).
Proof.
  induction inputs as [|input inputs IH]; [reflexivity|].
  cbn [new_Requests located]. unfold mbind at 1, Async_bind at 1, new_Request.
  destruct (locate input) as [key|]; [|reflexivity].
  unfold mbind, Async_bind. rewrite IH. now destruct (located inputs).
Qed.

Lemma located_spec inputs keys :
  located inputs = Some keys <-> Forall2 (fun input key => locate input = Some key) inputs keys.
Proof.
  revert keys. induction inputs as [|input inputs IH]; intros keys; simpl.
  - split; [intros H; injection H as <-; constructor|intros H; now inversion H].
  - split.
    + destruct (locate input) as [key|] eqn:E; [|discriminate].
      destruct (located inputs) as [ks|]; [|discriminate].
      intros H. injection H as <-. constructor; [exact E|]. now apply IH.
    + intros H. inversion H as [|? key ? ks E Hrest]; subst. rewrite E.
      apply IH in Hrest. now rewrite Hrest.
Qed.

(** Whether [cache.addAll] stores the shell. *)
Definition shell_served : bool :=
  match located STATIC_ASSETS with
  | Some keys => forallb (addable net) keys && bool_decide (NoDup keys)
  | None => false
  end.

(** The store of the shell after [addAll] succeeded. *)
Definition shell_stored (c : gmap string Response) : gmap string Response :=
  fold_left (fun c key => match net key with
                          | Some r => <[key := r]> c
                          | None => c
                          end) (default [] (located STATIC_ASSETS)) c.

(** What the shell branch fetches. *)
Definition shell_fetches : list string :=
  match located STATIC_ASSETS with
  | Some keys =>
      if forallb (fun key => startsWith key "http://" || startsWith key "https://") keys
      then keys else []
  | None => []
  end.

Lemma addable_scheme key :
  addable net key = true -> startsWith key "http://" || startsWith key "https://" = true.
Proof.
  unfold addable, put_accepts. destruct (net key) as [r|]; [|discriminate].
  intros H. apply andb_prop in H as [_ H]. apply andb_prop in H as [H _].
  now apply andb_prop in H as [H _].
Qed.

Lemma added_keeps keys (c : gmap string Response) key r :
  net key = Some r -> c !! key = Some r ->
  fold_left (fun c key => match net key with
                          | Some r => <[key := r]> c
                          | None => c
                          end) keys c !! key = Some r.
Proof.
  intros Hn. revert c. induction keys as [|k keys IH]; intros c Hc; [exact Hc|].
  cbn [fold_left]. apply IH. destruct (net k) as [rk|] eqn:Hk; [|exact Hc].
  destruct (decide (k = key)) as [->|Hne].
  - rewrite lookup_insert_eq. congruence.
  - now rewrite lookup_insert_ne.
Qed.

Lemma added_holds keys (c : gmap string Response) key r :
  In key keys -> net key = Some r ->
  fold_left (fun c key => match net key with
                          | Some r => <[key := r]> c
                          | None => c
                          end) keys c !! key = Some r.
Proof.
  intros Hin Hn. revert c. induction keys as [|k keys IH]; intros c; [destruct Hin|].
  cbn [fold_left]. destruct Hin as [->|Hin]; [|now apply IH].
  apply added_keeps; [exact Hn|]. rewrite Hn. apply lookup_insert_eq.
Qed.

Lemma onInstall_run w :
  onInstall tag locate net parse w =
  (Return shell_served,
   snd (cachePriorityWallpapers tag locate net parse
          {| caches := if shell_served
                       then update_store (STATIC_CACHE_NAME tag) shell_stored
                              (opened (STATIC_CACHE_NAME tag) (caches w))
                       else opened (STATIC_CACHE_NAME tag) (caches w);
             requests := requests w ++ shell_fetches |})).
Proof.
  unfold onInstall.
  assert (E : (cache ← caches_open (STATIC_CACHE_NAME tag);
               keys ← new_Requests locate STATIC_ASSETS;
               cache_addAll net cache keys) w =
              (if shell_served then Return tt
               else match located STATIC_ASSETS with
                    | Some keys =>
                        if forallb (fun key => startsWith key "http://"
                                               || startsWith key "https://") keys
                        then Throw "TypeError: Failed to execute 'addAll' on 'Cache'"
                        else Throw "TypeError: Request scheme is unsupported"
                    | None => Throw "TypeError: Failed to parse URL"
                    end,
               {| caches := if shell_served
                            then update_store (STATIC_CACHE_NAME tag) shell_stored
                                   (opened (STATIC_CACHE_NAME tag) (caches w))
                            else opened (STATIC_CACHE_NAME tag) (caches w);
                  requests := requests w ++ shell_fetches |})).
  { unfold mbind at 1, Async_bind at 1, caches_open.
    fold (opened (STATIC_CACHE_NAME tag) (caches w)).
    assert (Ho : (match lookup_store (STATIC_CACHE_NAME tag) (caches w) with
                  | Some _ => (Return (STATIC_CACHE_NAME tag), w)
                  | None => (Return (STATIC_CACHE_NAME tag),
                             {| caches := caches w ++ [(STATIC_CACHE_NAME tag, ∅)];
                                requests := requests w |})
                  end) = (Return (STATIC_CACHE_NAME tag),
                          {| caches := opened (STATIC_CACHE_NAME tag) (caches w);
                             requests := requests w |})).
    { unfold opened. destruct (lookup_store _ _); [now destruct w|reflexivity]. }
    rewrite Ho. unfold mbind, Async_bind. rewrite new_Requests_run.
    unfold shell_served, shell_stored, shell_fetches.
    destruct (located STATIC_ASSETS) as [keys|]; [|simpl; now rewrite app_nil_r].
    unfold cache_addAll. simpl.
    destruct (forallb (fun key => startsWith key "http://" || startsWith key "https://") keys)
      eqn:Hs; simpl.
    - destruct (forallb (addable net) keys && bool_decide (NoDup keys)); reflexivity.
    - assert (Hadd : forallb (addable net) keys = false).
      { apply not_true_is_false. intros Hall. rewrite forallb_forall in Hall.
        assert (forallb (fun key => startsWith key "http://" || startsWith key "https://")
                        keys = true); [|congruence].
        apply forallb_forall. intros key Hk. apply addable_scheme. now apply Hall. }
      rewrite Hadd. simpl. now rewrite app_nil_r. }
  rewrite E. rewrite !cachePriorityWallpapers_run. cbn [snd].
  destruct shell_served; [reflexivity|].
  destruct (located STATIC_ASSETS) as [keys|]; [|reflexivity].
  now destruct (forallb _ keys).
Qed.

Lemma shell_and_wallpaper_stores_differ : STATIC_CACHE_NAME tag <> WALLPAPER_CACHE_NAME tag.
Proof. unfold STATIC_CACHE_NAME, WALLPAPER_CACHE_NAME. cbv [String.append]. discriminate. Qed.

Lemma shell_served_spec :
  shell_served = true <->
  exists keys,
    Forall2 (fun input key => locate input = Some key) STATIC_ASSETS keys /\
    NoDup keys /\
    forall key, In key keys ->
      exists r, net key = Some r /\ ok r = true /\ put_accepts key r = true.
Proof.
  unfold shell_served. split.
  - destruct (located STATIC_ASSETS) as [keys|] eqn:E; [|discriminate].
    intros H. apply andb_prop in H as [Hall Hnd].
    exists keys. split; [now apply located_spec|].
    split; [now apply bool_decide_eq_true in Hnd|].
    intros key Hk. rewrite forallb_forall in Hall. specialize (Hall key Hk).
    unfold addable in Hall. destruct (net key) as [r|]; [|discriminate].
    apply andb_prop in Hall as [Hok Ha]. eauto.
  - intros (keys & Hl & Hnd & Hall). apply located_spec in Hl. rewrite Hl.
    apply andb_true_intro. split; [|now apply bool_decide_eq_true].
    apply forallb_forall. intros key Hk. destruct (Hall key Hk) as (r & Hn & Hok & Ha).
    unfold addable. now rewrite Hn, Hok, Ha.
Qed.

(** After [addAll] succeeded the store holds, under the URL of each shell
    asset, the response the network gave for it. *)
Lemma shell_stored_holds c asset key :
  shell_served = true -> In asset STATIC_ASSETS -> locate asset = Some key ->
  exists r, net key = Some r /\ ok r = true /\ shell_stored c !! key = Some r.
Proof.
  intros Hs Hin Hl. unfold shell_served, shell_stored in *.
  destruct (located STATIC_ASSETS) as [keys|] eqn:E; [|discriminate].
  apply andb_prop in Hs as [Hall Hnd]. apply bool_decide_eq_true in Hnd.
  assert (Hk : In key keys).
  { apply located_spec in E. clear -E Hin Hl. induction E as [|a k assets ks Ha E IH];
      [destruct Hin|]. destruct Hin as [->|Hin]; [left; congruence|right; now apply IH]. }
  rewrite forallb_forall in Hall. specialize (Hall key Hk). unfold addable in Hall.
  simpl. destruct (net key) as [r|] eqn:Hn; [|discriminate].
  apply andb_prop in Hall as [Hok _]. exists r.
  split; [reflexivity|]. split; [exact Hok|]. now apply added_holds.
Qed.

(** X12. Installation never fails. It calls [skipWaiting] exactly when
    [addAll] stored the shell: when the five shell assets denote five
    different URLs and the network served each of them with an ok
    response that the Cache API accepts; the static store then holds
    every shell asset with its response. Otherwise (an asset that does
    not parse, two assets with one URL, a failed fetch, an error status, a
    partial response) the failure is swallowed and the static store is
    left as it was (created empty when new), whatever part of the shell
    could be fetched. *)
Theorem install_caches_the_shell_all_or_nothing w :
  exists skipped w',
    onInstall tag locate net parse w = (Return skipped, w') /\
    (skipped = true <->
       exists keys,
         Forall2 (fun input key => locate input = Some key) STATIC_ASSETS keys /\
         NoDup keys /\
         forall key, In key keys ->
           exists r, net key = Some r /\ ok r = true /\ put_accepts key r = true) /\
    (skipped = true ->
       exists store, lookup_store (STATIC_CACHE_NAME tag) (caches w') = Some store /\
                     forall asset key, In asset STATIC_ASSETS -> locate asset = Some key ->
                       exists r, net key = Some r /\ store !! key = Some r) /\
    (skipped = false ->
       lookup_store (STATIC_CACHE_NAME tag) (caches w') =
         Some (default ∅ (lookup_store (STATIC_CACHE_NAME tag) (caches w)))).
Proof.
  exists shell_served. eexists. split; [apply onInstall_run|].
  assert (Hstatic : forall cs rs,
            lookup_store (STATIC_CACHE_NAME tag)
              (caches (snd (cachePriorityWallpapers tag locate net parse
                              {| caches := cs; requests := rs |}))) =
            lookup_store (STATIC_CACHE_NAME tag) cs).
  { intros cs rs. rewrite cachePriorityWallpapers_run. simpl.
    rewrite lookup_update_other, lookup_opened_other; [reflexivity| |];
      apply shell_and_wallpaper_stores_differ. }
  split; [apply shell_served_spec|]. split.
  - intros Hs. rewrite Hstatic, Hs, lookup_update_store, lookup_store_opened. simpl.
    eexists. split; [reflexivity|]. intros asset key Hin Hl.
    destruct (shell_stored_holds
                (default ∅ (lookup_store (STATIC_CACHE_NAME tag) (caches w)))
                asset key Hs Hin Hl) as (r & Hn & _ & H). eauto.
  - intros Hs. now rewrite Hstatic, Hs, lookup_store_opened.
Qed.


End InstallFacts.

(** *** What the stores never hold *)

Import WorkerLife.

Lemma only_ok_update name f cs :
  (forall c, map_Forall (fun _ r => ok r = true) c ->
             map_Forall (fun _ r => ok r = true) (f c)) ->
  only_ok cs -> only_ok (update_store name f cs).
Proof.
  intros Hf. unfold only_ok. induction 1 as [|[n c] cs Hc Hcs IH]; simpl; [constructor|].
  destruct (String.eqb n name); constructor; simpl; auto.
Qed.

Lemma only_ok_opened name cs : only_ok cs -> only_ok (opened name cs).
Proof.
  intros H. unfold opened. destruct (lookup_store name cs); [exact H|].
  apply Forall_app. split; [exact H|]. constructor; [|constructor].
  simpl. apply map_Forall_empty.
Qed.

Lemma only_ok_filter f cs : only_ok cs -> only_ok (List.filter f cs).
Proof.
  unfold only_ok. rewrite !List.Forall_forall. intros H nc Hin.
  apply List.filter_In in Hin as [Hin _]. now apply H.
Qed.

Lemma only_ok_stored name key r cs :
  ok r = true -> only_ok cs -> only_ok (stored name key r cs).
Proof.
  intros Hok H. unfold stored. destruct (put_accepts key r); [|now apply only_ok_opened].
  apply only_ok_update; [|now apply only_ok_opened].
  intros c Hc. now apply map_Forall_insert_2.
Qed.

Lemma only_ok_seeded locate net images c :
  map_Forall (fun _ r => ok r = true) c ->
  map_Forall (fun _ r => ok r = true) (fold_left (put_if_ok locate net) images c).
Proof.
  revert c. induction images as [|x images IH]; intros c Hc; [exact Hc|].
  cbn [fold_left]. apply IH. unfold put_if_ok.
  destruct (locate x) as [key|]; [|exact Hc].
  destruct (net key) as [r|]; [|exact Hc]. destruct (ok r) eqn:E; [|exact Hc].
  destruct (put_accepts key r); [|exact Hc].
  now apply map_Forall_insert_2.
Qed.

Lemma only_ok_shell locate net c :
  shell_served locate net = true ->
  map_Forall (fun _ r => ok r = true) c ->
  map_Forall (fun _ r => ok r = true) (shell_stored locate net c).
Proof.
  unfold shell_served, shell_stored.
  destruct (located locate STATIC_ASSETS) as [keys|]; [|discriminate]. simpl.
  intros Hs. apply andb_prop in Hs as [Hs _].
  revert c. induction keys as [|a keys IH]; intros c Hc; [exact Hc|].
  cbn [forallb] in Hs. apply andb_prop in Hs as [Ha Hs]. cbn [fold_left].
  apply IH; [exact Hs|]. unfold addable in Ha. destruct (net a) as [r|]; [|exact Hc].
  apply andb_prop in Ha as [Ha _]. now apply map_Forall_insert_2.
Qed.

Lemma only_ok_fetch tag locate net request handler w :
  onFetch tag locate net request = Some handler ->
  only_ok (caches w) -> only_ok (caches (snd (handler w))).
Proof.
  intros Hh H. unfold onFetch in Hh.
  destruct (route request); [discriminate| | |]; injection Hh as <-.
  - destruct (match_all (url request) (caches w)) as [c|] eqn:Hm;
      [now rewrite (wallpaper_hit tag net request w c Hm)|].
    destruct (net (url request)) as [r|] eqn:Hn.
    + destruct (ok r) eqn:Hok.
      * rewrite (wallpaper_miss_answered tag net request w r Hm Hn Hok). simpl.
        now apply only_ok_stored.
      * rewrite wallpaper_miss_failed; eauto.
    + rewrite wallpaper_miss_failed; auto.
  - destruct (match_all (url request) (caches w)) as [c|] eqn:Hm;
      [now rewrite (static_hit tag locate net request w c Hm)|].
    destruct (net (url request)) as [r|] eqn:Hn.
    + rewrite (static_miss_answered tag locate net request w r Hm Hn). simpl.
      destruct (ok r) eqn:Hok; [now apply only_ok_stored|exact H].
    + destruct (mode request) eqn:Hmode;
        [now rewrite (static_navigate_fallback tag locate net request w Hm Hn Hmode)
        |rewrite static_failure_propagates; [exact H|exact Hm|exact Hn|congruence]..].
  - destruct (net (url request)) as [r|] eqn:Hn.
    + rewrite (networkFirst_answered tag net request w r Hn). simpl.
      destruct (ok r) eqn:Hok; [now apply only_ok_stored|exact H].
    + now rewrite (networkFirst_down tag net request w Hn).
Qed.

Lemma only_ok_after tag locate parse net e w :
  only_ok (caches w) -> only_ok (caches (after tag locate parse net e w)).
Proof.
  intros H. destruct e as [| |request|msg]; simpl.
  - rewrite onInstall_run, cachePriorityWallpapers_run. simpl.
    apply only_ok_update; [intros c; apply only_ok_seeded|].
    apply only_ok_opened.
    destruct (shell_served locate net) eqn:Hs; [|now apply only_ok_opened].
    apply only_ok_update; [intros c; now apply only_ok_shell|].
    now apply only_ok_opened.
  - rewrite onActivate_caches. simpl. now apply only_ok_filter.
  - destruct (onFetch tag locate net request) as [handler|] eqn:Hh; [|exact H].
    now apply (only_ok_fetch tag locate net request).
  - destruct msg; unfold onMessage, mbind, Async_bind, mret, Async_ret; simpl; try exact H.
    + rewrite cacheWallpapers_run. simpl.
      apply only_ok_update; [intros c; apply only_ok_seeded|now apply only_ok_opened].
    + rewrite clearAllCaches_run. simpl. constructor.
    + now rewrite getCacheStatus_run.
Qed.

(** X14. Whatever the worker goes through (installations, activations, fetches
    and messages in any order, the network changing in between), it never
    stores a response that is not ok: starting from stores that hold only
    ok responses, as the empty storage does, every store holds only ok
    responses afterwards, and so every response found in the cache is ok. *)
Theorem stores_hold_only_ok_responses tag locate parse history w :
  only_ok (caches w) ->
  only_ok (caches (replay tag locate parse history w)) /\
  (forall key cached,
     match_all key (caches (replay tag locate parse history w)) = Some cached ->
     ok cached = true).
Proof.
  intros H.
  assert (Hall : only_ok (caches (replay tag locate parse history w))).
  { unfold replay. revert w H. induction history as [|[net e] history IH]; intros w H;
      [exact H|].
    cbn [fold_left]. apply IH. now apply only_ok_after. }
  split; [exact Hall|].
  intros key cached. generalize Hall.
  generalize (caches (replay tag locate parse history w)).
  intros cs Hcs. induction Hcs as [|[n c] cs Hc Hcs IH]; simpl; [discriminate|].
  destruct (c !! key) as [r|] eqn:E; [|exact IH].
  intros Hr. injection Hr as <-. exact (Hc key r E).
Qed.

(** *** Instances *)

Import Samples.

(** A morning of a worker: install online, activate, a wallpaper while the
    server answers 404, one while it answers with a part, a seed message,
    then offline. *)
Lemma stores_hold_only_ok_responses_witness :
  let history :=
    [(online, Install); (online, Activate); (missing, Fetch wallpaper_request);
     (ranged, Fetch wallpaper_request);
     (gallery, Message (CACHE_WALLPAPERS ["/wallpapers/nature/b.jpg"]));
     (offline, Fetch index_request)] in
  only_ok (caches no_stores) /\
  forall key cached,
    match_all key (caches (replay "v1" here (fun _ => None) history no_stores)) = Some cached ->
    ok cached = true.
Proof.
  intros history.
  assert (H : only_ok (caches no_stores)) by constructor.
  split; [exact H|].
  destruct (stores_hold_only_ok_responses "v1" here (fun _ => None) history no_stores H)
    as [_ Hok].
  exact Hok.
Defined.

(** A fresher shell on the network wins over the cached one. *)
Lemma networkFirst_returns_network_answer_witness :
  online (url index_request) = Some shell_new /\
  match_all (url index_request) (caches shell_cached) = Some shell_old /\
  fst (handleNetworkFirstRequest "v1" online index_request shell_cached) = Return shell_new.
Proof.
  split; [reflexivity|]. split; [reflexivity|].
  destruct (networkFirst_returns_network_answer "v1" online index_request shell_cached
              shell_new eq_refl) as (w' & E & _).
  now rewrite E.
Defined.

(** A part of a wallpaper is handed to the client by the network-first
    strategy and is not stored. *)
Example networkFirst_partial_answer :
  handleNetworkFirstRequest "v1" ranged index_request no_stores =
    (Return partial_jpeg,
     {| caches := [("desktop-clock-v1", ∅)]; requests := [index_html] |}).
Proof. reflexivity. Qed.

(** Offline, the cached shell is served by the network-first strategy. *)
Lemma networkFirst_falls_back_to_cache_witness :
  offline (url index_request) = None /\
  fst (handleNetworkFirstRequest "v1" offline index_request shell_cached) = Return shell_old.
Proof.
  split; [reflexivity|].
  destruct (networkFirst_falls_back_to_cache "v1" offline index_request shell_cached eq_refl)
    as (w' & E & _).
  now rewrite E.
Defined.

(** A 404 for the root document is handed to the client and not stored. *)
Lemma static_miss_returns_network_answer_witness :
  match_all (url root_request) (caches no_stores) = None /\
  online (url root_request) = Some not_found /\
  handleStaticAssetRequest "v1" here online root_request no_stores =
    (Return not_found, {| caches := []; requests := ["https://clock.example/"] |}).
Proof.
  split; [reflexivity|]. split; [reflexivity|].
  destruct (static_miss_returns_network_answer "v1" here online root_request no_stores
              not_found eq_refl eq_refl) as (w' & E & Hreq & _ & Hkeep).
  rewrite E. f_equal. destruct w' as [cs rs]. simpl in *.
  now rewrite Hreq, (Hkeep eq_refl).
Defined.

(** A wallpaper seen once online is served offline. *)
Lemma visited_once_served_offline_witness :
  onFetch "v1" here online wallpaper_request =
    Some (handleWallpaperRequest "v1" online wallpaper_request) /\
  put_accepts (url wallpaper_request) jpeg = true /\
  exists again,
    onFetch "v1" here offline wallpaper_request = Some again /\
    fst (again (snd (handleWallpaperRequest "v1" online wallpaper_request no_stores)))
      = Return jpeg.
Proof.
  split; [reflexivity|]. split; [reflexivity|].
  destruct (visited_once_served_offline "v1" here online wallpaper_request no_stores jpeg
              (handleWallpaperRequest "v1" online wallpaper_request)
              eq_refl eq_refl eq_refl eq_refl eq_refl offline eq_refl)
    as (again & Ha & _ & Hr).
  exists again. split; assumption.
Defined.

(** A wallpaper seen once as a partial response is not served offline. *)
Example visited_partially_not_served_offline :
  let w' := snd (handleWallpaperRequest "v1" ranged wallpaper_request no_stores) in
  fst (handleWallpaperRequest "v1" ranged wallpaper_request no_stores) = Return partial_jpeg /\
  fst (handleWallpaperRequest "v1" offline wallpaper_request w') = Return unavailable.
Proof. split; reflexivity. Qed.

(** A seeded wallpaper is a cache hit offline. *)
Lemma seeded_wallpaper_served_offline_witness :
  let images := ["/wallpapers/nature/a.jpg"; "/wallpapers/nature/b.jpg"] in
  let w' := snd (cacheWallpapers "v1" here gallery images no_stores) in
  In "/wallpapers/nature/a.jpg" images /\
  here "/wallpapers/nature/a.jpg" = Some (url wallpaper_request) /\
  handleWallpaperRequest "v1" offline wallpaper_request w' = (Return jpeg, w').
Proof.
  intros images w'. split; [now left|]. split; [reflexivity|].
  destruct (seeded_wallpaper_served_offline "v1" here gallery images no_stores
              wallpaper_request "/wallpapers/nature/a.jpg" jpeg
              (or_introl eq_refl) eq_refl eq_refl eq_refl eq_refl eq_refl offline)
    as (cached & Hc & E).
  fold w' in Hc, E. rewrite E. f_equal. f_equal.
  change (match_all (url wallpaper_request) (caches w')) with (Some jpeg) in Hc.
  now injection Hc as <-.
Defined.

(** Two new images raise the entry count from 0 to 2. *)
Lemma seeding_new_images_adds_their_number_witness :
  let images := ["/wallpapers/nature/a.jpg"; "/wallpapers/nature/b.jpg"] in
  NoDup (omap here images) /\
  entry_count "desktop-clock-wallpapers-v1"
    (caches (snd (cacheWallpapers "v1" here gallery images no_stores))) = 2.
Proof.
  intros images.
  assert (Hnd : NoDup (omap here images)).
  { change (omap here images) with [a_jpg; b_jpg].
    apply NoDup_cons. split; [|apply NoDup_singleton].
    intros H. apply list_elem_of_In in H. destruct H as [H|[]]. discriminate H. }
  split; [exact Hnd|].
  change "desktop-clock-wallpapers-v1" with (WALLPAPER_CACHE_NAME "v1").
  destruct (seeding_new_images_adds_their_number "v1" here gallery images no_stores Hnd)
    as [E _].
  - intros key [<-|[<-|[]]]; reflexivity.
  - intros key store _ H. discriminate H.
  - rewrite E. reflexivity.
Defined.

(** Two strings for one URL make one entry, and a partial response makes
    none. *)
Example seeding_counts_urls :
  entry_count "desktop-clock-wallpapers-v1"
    (caches (snd (cacheWallpapers "v1" here gallery
                    ["/wallpapers/nature/a.jpg"; a_jpg] no_stores))) = 1 /\
  entry_count "desktop-clock-wallpapers-v1"
    (caches (snd (cacheWallpapers "v1" here ranged
                    ["/wallpapers/nature/a.jpg"] no_stores))) = 0.
Proof. split; reflexivity. Qed.

(** A manifest that names a file with dot segments: the entry is filed
    under the URL the string denotes, outside /wallpapers/. *)
Example install_files_under_the_resolved_url :
  let manifest : string -> option (gmap string (list string)) :=
    fun _ => Some {["nature" := ["../../index.html"]]} in
  let served_all : Network := fun _ => Some shell_new in
  lookup_store "desktop-clock-wallpapers-v1"
    (caches (snd (ServiceWorkerInstall.cachePriorityWallpapers "v1" here served_all manifest
                    no_stores))) = Some {[index_html := shell_new]}.
Proof. reflexivity. Qed.

(** Installing offline asks three times for the manifest and caches
    nothing. *)
Lemma install_without_manifest_caches_nothing_witness :
  here "/wallpapers/manifest.json" = Some "https://clock.example/wallpapers/manifest.json" /\
  offline "https://clock.example/wallpapers/manifest.json" = None /\
  ServiceWorkerInstall.cachePriorityWallpapers "v1" here offline (fun _ => None) no_stores =
    (Return tt,
     {| caches := [("desktop-clock-wallpapers-v1", ∅)];
        requests := ["https://clock.example/wallpapers/manifest.json";
                     "https://clock.example/wallpapers/manifest.json";
                     "https://clock.example/wallpapers/manifest.json"] |}).
Proof.
  split; [reflexivity|]. split; [reflexivity|].
  rewrite (install_without_manifest_caches_nothing "v1" here offline (fun _ => None) no_stores
             (fun _ _ => or_introl eq_refl)).
  reflexivity.
Defined.

(** A shell of which one asset comes as a partial response is not cached
    at all. *)
Example install_refuses_a_partial_shell :
  let mostly : Network := fun key =>
    if String.eqb key index_html then Some partial_jpeg else Some shell_new in
  ServiceWorkerInstall.onInstall "v1" here mostly (fun _ => None) no_stores =
    (Return false,
     {| caches := [("desktop-clock-static-v1", ∅); ("desktop-clock-wallpapers-v1", ∅)];
        requests := ["https://clock.example/"; index_html;
                     "https://clock.example/static/js/bundle.js";
                     "https://clock.example/static/css/main.css";
                     "https://clock.example/manifest.json";
                     "https://clock.example/wallpapers/manifest.json";
                     "https://clock.example/wallpapers/manifest.json";
                     "https://clock.example/wallpapers/manifest.json"] |}).
Proof. vm_compute. reflexivity. Qed.


End CacheWorkerFacts.

(** * The control channel end to end *)
Module ControlChannelFacts.
Import ServiceWorker ServiceWorkerClient ControlChannel.
Import ServiceWorkerFacts ServiceWorkerClientFacts CacheWorkerFacts.

(** X15. A status request over a controlled page whose reply arrives before the
    timer returns the worker's report: every store with its entry count,
    except a store named ["__proto__"], for which the report, a plain
    object, takes no key. The worker's world is not changed by the
    request. *)
Theorem status_request_returns_the_worker_report tag locate net l w :
  controlled l = true ->
  (latency l < TIMEOUT_MS)%N ->
  exists st,
    post tag locate net l GET_CACHE_STATUS w =
      (w, {| controller := true; reply := Some (latency l, st);
             reply_first := tie_to_reply l |}) /\
    ServiceWorkerClient.getCacheStatus (snd (post tag locate net l GET_CACHE_STATUS w))
      = Returns st /\
    (forall name, In name (map fst (caches w)) -> name <> "__proto__" ->
       st !! name = Some (entry_count name (caches w))) /\
    (forall name, ~ In name (map fst (caches w)) -> st !! name = None) /\
    st !! "__proto__" = None.
Proof.
  intros Hc Hl. eexists.
  assert (E : post tag locate net l GET_CACHE_STATUS w =
              (w, {| controller := true;
                     reply := Some (latency l,
                                fold_left (fun st n =>
                                             set_property n (entry_count n (caches w)) st)
                                          (map fst (caches w)) ∅);
                     reply_first := tie_to_reply l |})).
  { unfold post. rewrite Hc. unfold onMessage, mbind, Async_bind.
    now rewrite getCacheStatus_run. }
  split; [exact E|]. rewrite E. cbn [snd]. split.
  - unfold ServiceWorkerClient.getCacheStatus.
    now erewrite send_reply_in_time by (try reflexivity; exact Hl).
  - split; [|split].
    + intros name Hin Hp. now apply (status_lookup (fun n => entry_count n (caches w))).
    + intros name Hn.
      rewrite (status_lookup_other (fun n => entry_count n (caches w))); [reflexivity|now left].
    + rewrite (status_lookup_other (fun n => entry_count n (caches w)));
        [reflexivity|now right].
Qed.

(** The worker does not answer CACHE_WALLPAPERS, CLEAR_CACHE or
    SKIP_WAITING on the reply port. *)
Lemma no_reply_posted tag locate net l msg w :
  msg <> GET_CACHE_STATUS ->
  reply (snd (post tag locate net l msg w)) = None.
Proof.
  intros Hm. unfold post. destruct (controlled l); [|reflexivity].
  destruct msg; try contradiction; unfold onMessage, mbind, Async_bind, mret, Async_ret.
  - reflexivity.
  - now destruct (ServiceWorker.cacheWallpapers tag locate net images w) as [[[]|e] w'].
  - now destruct (clearAllCaches w) as [[[]|e] w'].
  - reflexivity.
Qed.

Lemma send_without_reply {A} (env : Environment A) :
  reply env = None ->
  sendMessageToServiceWorker env =
    Rejected (if controller env then "Service Worker message timeout"
              else "Service Worker not available").
Proof.
  intros Hr. unfold sendMessageToServiceWorker, tasks. rewrite Hr.
  now destruct (controller env).
Qed.

(** X16. The client's [cacheWallpapers] and [clearServiceWorkerCache] never
    report success: the worker posts no reply to their messages, so the
    promise is rejected by the timer (or at once when no worker controls
    the page) and the failure line is written, even though a controlling
    worker has seeded, respectively cleared, its stores. *)
Theorem client_calls_never_report_success tag locate net l images w :
  let reason := if controlled l then "Service Worker message timeout"
                else "Service Worker not available" in
  ControlChannel.cacheWallpapers (snd (post tag locate net l (CACHE_WALLPAPERS images) w)) =
    Some (ConsoleError "Failed to cache wallpapers:" reason) /\
  clearServiceWorkerCache (snd (post tag locate net l CLEAR_CACHE w)) =
    Some (ConsoleError "Failed to clear cache:" reason) /\
  (controlled l = true ->
     fst (post tag locate net l (CACHE_WALLPAPERS images) w) =
       snd (ServiceWorker.cacheWallpapers tag locate net images w) /\
     caches (fst (post tag locate net l CLEAR_CACHE w)) = []).
Proof.
  intros reason.
  assert (Hctl : forall msg, controller (snd (post tag locate net l msg w)) = controlled l).
  { intros msg. unfold post. destruct (controlled l); [|reflexivity].
    now destruct (onMessage tag locate net msg w). }
  split; [|split].
  - unfold ControlChannel.cacheWallpapers.
    rewrite send_without_reply by (apply no_reply_posted; discriminate).
    now rewrite Hctl.
  - unfold clearServiceWorkerCache.
    rewrite send_without_reply by (apply no_reply_posted; discriminate).
    now rewrite Hctl.
  - intros Hc. unfold post. rewrite Hc. unfold onMessage, mbind, Async_bind.
    rewrite cacheWallpapers_run, clearAllCaches_run. split; reflexivity.
Qed.

(** A status request answered after 20 ms, over the stores v1 left. *)
Lemma status_request_returns_the_worker_report_witness :
  let l := {| controlled := true; latency := 20; tie_to_reply := false |} in
  (latency l < TIMEOUT_MS)%N /\
  exists st,
    ServiceWorkerClient.getCacheStatus
      (snd (post "v1" Samples.here Samples.online l GET_CACHE_STATUS Samples.after_v1))
      = Returns st /\
    st !! "desktop-clock-static-v1" = Some 1 /\
    st !! "desktop-clock-images-v1" = None.
Proof.
  intros l. split; [reflexivity|].
  destruct (status_request_returns_the_worker_report "v1" Samples.here Samples.online l
              Samples.after_v1 eq_refl eq_refl) as (st & _ & Hs & Hin & Hout & _).
  exists st. split; [exact Hs|]. split.
  - rewrite Hin; [reflexivity| |discriminate]. simpl. tauto.
  - apply Hout. simpl. intros [H|[H|[H|[H|[H|[]]]]]]; discriminate H.
Defined.

(** A store named ["__proto__"] is left out of the report. *)
Example status_report_skips_proto :
  fst (ServiceWorker.getCacheStatus
         {| caches := [("__proto__", {[Samples.a_jpg := Samples.jpeg]});
                       ("desktop-clock-v1", ∅)];
            requests := [] |}) = Return {["desktop-clock-v1" := 0]}.
Proof. reflexivity. Qed.

End ControlChannelFacts.

(** * More on the rotation hook and its display *)
Module RotationDisplayFacts.
Import WallpaperRotation WallpaperRotationFacts.

(** X17. A run of [loadImages] is a full reset: the state it ends in depends on
    the categories, the resolution and the draws, not on the state before,
    and it is never left loading. *)
Theorem loadImages_resets_the_state categories r rnd s1 s2 :
  loadImages categories r rnd s1 = loadImages categories r rnd s2 /\
  isLoading (loadImages categories r rnd s1) = false.
Proof.
  unfold loadImages, loadImages_begin.
  destruct (length categories =? 0); [split; reflexivity|].
  destruct r as [images errors|err]; simpl; [|split; reflexivity].
  destruct (length images =? 0); split; reflexivity.
Qed.

(** X18. After a load that found images the hook preloads min(3, n) images, all
    drawn from the resolved list (the current one and repeats included);
    a load that found none, or whose resolution threw, preloads nothing. *)
Theorem load_preloads_up_to_three images errors rnd s :
  images <> [] ->
  exists pre,
    snd (loadImages_resolved (Resolved images errors) rnd s) = Some pre /\
    length pre = Nat.min 3 (length images) /\
    (forall p, In p pre -> exists img, p = Some img /\ In img images) /\
    snd (loadImages_resolved (Resolved [] errors) rnd s) = None /\
    (forall err, snd (loadImages_resolved (ResolutionThrew err) rnd s) = None).
Proof.
  intros Hi. exists (preload_after_load rnd images).
  split; [simpl; now rewrite (length_nonzero _ Hi)|].
  unfold preload_after_load. split; [now rewrite length_map, length_seq|].
  split; [|split; reflexivity].
  intros p Hp. apply in_map_iff in Hp as (i & <- & _).
  destruct (random_image images (rnd (S i)) Hi) as (img & E & Hin). eauto.
Qed.

(** X19. After a run of [loadImages] the enabled display shows one of three
    panels, decided by the inputs alone: the "no categories" text for the
    empty selection, an image of the resolved list when there is one, and
    otherwise the error panel with a message. It never shows the "no
    images found" text. *)
Theorem display_after_a_load categories r rnd s :
  let s' := loadImages categories r rnd s in
  match categories, r with
  | [], _ => render categories true s' = EmptyPanel "No wallpaper categories selected"
  | _ :: _, Resolved (image :: images) _ =>
      exists shown, In shown (image :: images) /\ render categories true s' = ImagePanel shown
  | _ :: _, _ =>
      exists message, message <> "" /\ render categories true s' = ErrorPanel message
  end /\
  render categories true s' <> EmptyPanel "No images found in selected categories".
Proof.
  intros s'. unfold s'. destruct categories as [|category categories].
  - split; [reflexivity|discriminate].
  - destruct r as [[|image images] errors|err].
    + unfold loadImages. simpl.
      destruct (0 <? length errors); (split; [eexists; split; [|reflexivity]|]);
        discriminate.
    + destruct (loadImages_found (category :: categories) (image :: images) errors rnd s)
        as (shown & Hin & E); [discriminate|discriminate|].
      rewrite E. unfold render, hasImages. simpl. split; [eauto|discriminate].
    + unfold loadImages. simpl.
      split; [eexists; split; [|reflexivity]|]; destruct err; discriminate.
Qed.

(** X20. With a single image available no timer runs, whether the hook is
    enabled or not, and a call of the [nextImage] of that render selects
    that image again and preloads nothing. *)
Theorem single_image_stays image rnd s enabled :
  availableImages s = [image] ->
  timer_runs enabled s = false /\
  interval_effect enabled s = None /\
  nextImage (availableImages s) rnd s =
    ({| availableImages := [image]; currentImage := Some image; currentIndex := 0;
        isLoading := isLoading s; error := error s |}, Some []).
Proof.
  intros H. unfold interval_effect, timer_runs, nextImage. rewrite H. simpl.
  rewrite !random_index_one. simpl.
  split; [apply andb_false_r|]. split; [now rewrite andb_false_r|reflexivity].
Qed.

(** X21. As long as no tick falls between a state update and the render that
    follows it (every tick runs the [nextImage] of the latest state),
    whatever the order in which overlapping loads settle: an image on
    display is one of the available images; when the hook is enabled, not
    loading and without error, the display shows an image exactly when
    some image is available. *)
Theorem display_shows_an_available_image categories h :
  rtc timely_step (mount categories) h ->
  reachable h /\
  (forall shown image, render shown true (cells h) = ImagePanel image ->
     In image (availableImages (cells h))) /\
  (forall shown, isLoading (cells h) = false -> truthy (error (cells h)) = None ->
     availableImages (cells h) <> [] ->
     exists image, render shown true (cells h) = ImagePanel image) /\
  (availableImages (cells h) = [] ->
     forall shown image, render shown true (cells h) <> ImagePanel image).
Proof.
  intros Ht.
  assert (Hr : consistent (cells h)) by exact (timely_consistent categories h Ht).
  split.
  { exists categories. eapply rtc_subrel; [|exact Ht]. exact timely_step_is_step. }
  set (s := cells h) in *. unfold render, hasImages. simpl. split; [|split].
  - intros shown image. destruct (isLoading s); [discriminate|].
    destruct (truthy (error s)); [discriminate|].
    destruct (0 <? length (availableImages s)) eqn:E; [|discriminate].
    assert (Hne : availableImages s <> []).
    { intros H. rewrite H in E. discriminate. }
    destruct (consistent_current s Hr Hne) as (img & Hc & Hin). rewrite Hc.
    intros H. injection H as <-. exact Hin.
  - intros shown Hl He Hne. rewrite Hl, He.
    destruct (consistent_current s Hr Hne) as (img & Hc & Hin). rewrite Hc.
    apply length_pos in Hne. apply Nat.ltb_lt in Hne. rewrite Hne. eauto.
  - intros Hempty shown image. rewrite Hempty. simpl.
    destruct (isLoading s); [discriminate|].
    destruct (truthy (error s)); discriminate.
Qed.

Import RotationSamples.

(** Two resolved images: two preloads, each one of the two. *)
Lemma load_preloads_up_to_three_witness :
  [dawn; dusk] <> [] /\
  exists pre,
    snd (loadImages_resolved (Resolved [dawn; dusk] []) zero_then_halves initial) = Some pre /\
    length pre = 2.
Proof.
  split; [discriminate|].
  destruct (load_preloads_up_to_three [dawn; dusk] [] zero_then_halves initial)
    as (pre & E & Hl & _); [discriminate|].
  exists pre. split; assumption.
Defined.

(** One image on display. *)
Lemma single_image_stays_witness :
  let s := {| availableImages := [dawn]; currentImage := Some dawn; currentIndex := 0;
              isLoading := false; error := None |} in
  availableImages s = [dawn] /\
  nextImage [dawn] zero_then_halves s = (s, Some []).
Proof.
  intros s. split; [reflexivity|].
  destruct (single_image_stays dawn zero_then_halves s true eq_refl) as (_ & _ & E).
  exact E.
Defined.

(** After the first load of two images and a tick of the interval that
    the next render started, the second image is on display. *)
Lemma display_shows_an_available_image_witness :
  let h := tick [dawn; dusk] halves showing_nature in
  rtc timely_step (mount ["nature"]) h /\
  render ["nature"] true (cells h) = ImagePanel dusk /\
  In dusk (availableImages (cells h)).
Proof.
  intros h.
  assert (Hr : rtc timely_step (mount ["nature"]) h).
  { unfold h.
    change (tick [dawn; dusk] halves showing_nature)
      with (tick (availableImages (cells showing_nature)) halves showing_nature).
    eapply rtc_r; [|apply (timely_tick halves); reflexivity].
    unfold showing_nature.
    eapply rtc_r; [|apply timely_render].
    eapply rtc_r; [|apply timely_preloaded; simpl; lia].
    eapply rtc_r; [|apply timely_resolved; simpl; lia].
    apply rtc_refl. }
  split; [exact Hr|]. split; [reflexivity|].
  destruct (display_shows_an_available_image ["nature"] h Hr) as (_ & Hin & _).
  apply (Hin ["nature"]). reflexivity.
Defined.

End RotationDisplayFacts.

(** * The category checkboxes *)
Module SettingsPanelFacts.
Import SettingsPanel.

Lemma includes_In l c : includes l c = true <-> In c l.
Proof.
  unfold includes. rewrite existsb_exists. split.
  - intros (x & Hin & E). apply String.eqb_eq in E. now subst.
  - intros Hin. exists c. split; [exact Hin|apply String.eqb_refl].
Qed.

(** X22. Ticking a category selects it and unticking deselects it, the other
    categories staying as they were; a selection without repeats stays
    without repeats, and ticking a selected category changes nothing. *)
Theorem toggle_selects_exactly_the_category selectedCategories category :
  (forall c, In c (handleCategoryToggle selectedCategories category true) <->
             c = category \/ In c selectedCategories) /\
  (forall c, In c (handleCategoryToggle selectedCategories category false) <->
             In c selectedCategories /\ c <> category) /\
  (forall selected, NoDup selectedCategories ->
     NoDup (handleCategoryToggle selectedCategories category selected)) /\
  (In category selectedCategories ->
     handleCategoryToggle selectedCategories category true = selectedCategories).
Proof.
  unfold handleCategoryToggle. split; [|split; [|split]].
  - intros c. destruct (includes selectedCategories category) eqn:E.
    + apply includes_In in E. split; [tauto|]. intros [->|H]; assumption.
    + rewrite in_app_iff. simpl. split; [intros [H|[H|[]]]; auto|].
      intros [H|H]; auto.
  - intros c. rewrite List.filter_In, negb_true_iff. split.
    + intros [Hin E]. split; [exact Hin|]. intros ->. now rewrite String.eqb_refl in E.
    + intros [Hin Hne]. split; [exact Hin|]. now apply String.eqb_neq.
  - intros [|] Hnd.
    + destruct (includes selectedCategories category) eqn:E; [exact Hnd|].
      apply NoDup_app. split; [exact Hnd|]. split; [|apply NoDup_singleton].
      intros x Hx Hc. apply list_elem_of_In in Hx, Hc. destruct Hc as [->|[]].
      apply includes_In in Hx. congruence.
    + apply NoDup_ListNoDup, List.NoDup_filter, NoDup_ListNoDup, Hnd.
  - intros Hin. apply includes_In in Hin. now rewrite Hin.
Qed.

End SettingsPanelFacts.

(** * Settings as stored *)
Module StoredSettingsFacts.
Import StoredSettings.



Lemma ToBoolean_string s : ToBoolean (VString s) = true <-> s <> "".
Proof.
  simpl. rewrite negb_true_iff. split.
  - intros H ->. discriminate H.
  - intros H. now apply String.eqb_neq.
Qed.

(** What was just saved passes [validateSettings] and carries the current
    version. *)
Lemma saved_is_valid now appSettings :
  validateSettings (convertAppToStoredSettings now appSettings) = true /\
  version_differs (convertAppToStoredSettings now appSettings) = false.
Proof. split; reflexivity. Qed.

(** X23. Settings of the declared types that were saved load back unchanged,
    whenever they were saved, provided the font colour and the font
    family are not empty; an empty one comes back as the default, so such
    settings do not load back as they were. *)
Theorem saved_settings_load_back now appSettings :
  loadSettings (saved now appSettings) = untyped appSettings <->
  typed_fontColor appSettings <> "" /\ typed_fontFamily appSettings <> "".
Proof.
  assert (E : loadSettings (saved now appSettings) =
              convertStoredToAppSettings
                (convertAppToStoredSettings now (untyped appSettings))) by reflexivity.
  rewrite E. unfold convertStoredToAppSettings, convertAppToStoredSettings. cbn [get find
    String.eqb fst snd Ascii.eqb Bool.eqb].
  assert (Hmode : forall s, or_default (VString (match typed_displayMode appSettings with
                                                 | digital_clock => "digital-clock"
                                                 | wallpaper => "wallpaper"
                                                 | focus_mode => "focus-mode"
                                                 end)) s
                            = displayMode (untyped appSettings)).
  { intros s. simpl. now destruct (typed_displayMode appSettings). }
  split.
  - intros H. destruct appSettings as [ce we sc ri tf fc ff dm]. simpl in H.
    injection H as Hc Hf _. simpl.
    unfold or_default in Hc, Hf. simpl in Hc, Hf.
    split; intros ->; simpl in *; discriminate.
  - intros [Hc Hf]. apply ToBoolean_string in Hc, Hf.
    destruct appSettings as [ce we sc ri tf fc ff dm]. simpl in *.
    unfold or_default. simpl. rewrite Hc, Hf. now destruct dm.
Qed.


(** A stored font colour that is an empty array passes the validation and
    is what the application gets. *)
Example loaded_font_colour_may_be_an_array :
  let parsedData :=
    VObject [("version", VString "1.0.0"); ("clockEnabled", VBool true);
             ("wallpaperEnabled", VBool true); ("selectedCategories", VArray []);
             ("rotationInterval", VNumber 60000); ("timeFormat", VString "12h");
             ("fontColor", VArray []); ("fontFamily", VString "Arial, sans-serif");
             ("lastUpdated", VString "2024-01-01T00:00:00.000Z")] in
  validateSettings parsedData = true /\
  fontColor (loadSettings (Parsed parsedData)) = VArray [] /\
  displayMode (loadSettings (Parsed parsedData)) = VString "digital-clock".
Proof. repeat split. Qed.

End StoredSettingsFacts.
